(** * The pizza-kitchen scheduler of [script.js], embedded in Rocq

    The repository holds four revisions of one Node.js script.  The revision
    with the Done bucket, the zero-duration guard and the [enableReady] /
    [disableReady] flags (src/unnamed/part_000) is embedded at top level;
    the parts of src/script.js that differ and that the specification talks
    about are embedded in [Module ScriptJs].

    Conventions of the embedding:
    - JavaScript numbers that the program handles are integers (stage
      numbers, identifiers, topping counts, milliseconds); they are [Z] or
      [nat].  The one division, [x / 2] under [Math.ceil], is done in [Q],
      which is exact for the doubles involved (integers below 2^53 and
      their halves).
    - Objects are referred to by reference: an order by its identifier (the
      key of the object store [heap]), a worker by its bucket and index in
      [allPreps].
    - [Date.now()] and the text of log lines are not modelled; each
      [console.log] is an event of the trace. *)

From Stdlib Require Import ZArith QArith Qround Lia.
From stdpp Require Import gmap list strings.

Local Open Scope Z_scope.

(** ** JavaScript values *)

Inductive jsval :=
| JUndefined
| JNull
| JBool (b : bool)
| JNum (n : Z)
| JStr (s : string).

(** [===] *)
Definition strict_eq (a b : jsval) : bool :=
  match a, b with
  | JUndefined, JUndefined => true
  | JNull, JNull => true
  | JBool x, JBool y => Bool.eqb x y
  | JNum x, JNum y => x =? y
  | JStr x, JStr y => String.eqb x y
  | _, _ => false
  end.

(** ToBoolean, as used by [if (...)] and [!] *)
Definition truthy (v : jsval) : bool :=
  match v with
  | JUndefined | JNull => false
  | JBool b => b
  | JNum n => negb (n =? 0)
  | JStr s => negb (String.eqb s EmptyString)
  end.

Inductive Error :=
| InvalidStage          (* new Error('invalid stage') *)
| TypeError.            (* property access on undefined *)

Inductive result (A : Type) :=
| Ok (a : A)
| Err (e : Error).
Arguments Ok {A} a.
Arguments Err {A} e.

(** ** Stage sequence *)

Module StageTypes.
Definition DOUGHCHEF : Z := 1.
Definition TOPPINGCHEF : Z := 2.
Definition OVEN : Z := 3.
Definition WAITER : Z := 4.
Definition DONE : Z := 5.
End StageTypes.

(** [PrepStage.getNextStage]: a [switch] compares with [===], first match
    wins, [default] throws. *)
Definition getNextStage (stageType : jsval) : result Z :=
  if strict_eq stageType (JNum StageTypes.DOUGHCHEF) then Ok StageTypes.TOPPINGCHEF
  else if strict_eq stageType (JNum StageTypes.TOPPINGCHEF) then Ok StageTypes.OVEN
  else if strict_eq stageType (JNum StageTypes.OVEN) then Ok StageTypes.WAITER
  else if strict_eq stageType (JNum StageTypes.WAITER) then Ok StageTypes.DONE
  else Err InvalidStage.

(** ** Stage configuration *)

Record PrepConfig := mkPrepConfig { stageType : Z; msToPrep : Z }.

(** [new PrepConfig(stageType, secondsToPrep)] *)
Definition new_PrepConfig (stageType secondsToPrep : Z) : PrepConfig :=
  {| stageType := stageType; msToPrep := secondsToPrep * 1000 |}.

Definition doughChefConfig := new_PrepConfig StageTypes.DOUGHCHEF 7.
Definition toppingChefConfig := new_PrepConfig StageTypes.TOPPINGCHEF 4.
Definition ovenConfig := new_PrepConfig StageTypes.OVEN 10.
Definition waiterConfig := new_PrepConfig StageTypes.WAITER 5.

(** The four subclasses of [PrepStage]. *)
Inductive PrepClass := DoughChef | ToppingChef | Oven | Waiter.

(** [static getConfig()] of each subclass *)
Definition getConfig (cl : PrepClass) : PrepConfig :=
  match cl with
  | DoughChef => doughChefConfig
  | ToppingChef => toppingChefConfig
  | Oven => ovenConfig
  | Waiter => waiterConfig
  end.

(** ** Orders and workers *)

Record Order := mkOrder {
  o_id : nat;
  toppingsCount : Z;
  stage : Z;
  o_ready : bool
}.

Record Prep := mkPrep {
  p_class : PrepClass;
  p_id : nat;
  p_ready : bool
}.

(** [PrepStage.getStage] *)
Definition getStage (p : Prep) : Z := stageType (getConfig (p_class p)).

(** [Math.ceil] *)
Definition Math_ceil (x : Q) : Z := Qceiling x.

(** [calculateProcessingTime]: [ToppingChef] overrides the method of
    [PrepStage], the other classes inherit it. *)
Definition calculateProcessingTime (p : Prep) (order : Order) : Z :=
  match p_class p with
  | ToppingChef =>
      Math_ceil (inject_Z (msToPrep (getConfig ToppingChef) * toppingsCount order) / 2)
  | cl => msToPrep (getConfig cl)
  end.

(** ** Program state *)

(** A worker is [allPreps[k][i]]. *)
Abbreviation PrepRef := (Z * nat)%type.

(** A pending [setTimeout]: the pairing whose completion callback it holds,
    and the delay in milliseconds. *)
Record Timer := mkTimer { t_order : nat; t_prep : PrepRef; t_delay : Z }.

Inductive Party :=
| AnOrder (order : nat)
| APrep (prep : PrepRef).

(** What the program does that can be observed from outside an object, in
    program order: its [console.log] lines, the writes of [ready] flags and
    the events it emits ([FREEORDER] by an order, [FREESTAGE] by a worker). *)
Inductive Event :=
| LogProcessing (order : nat) (prep : PrepRef) (time : Z)
| LogDoneOrder (order : nat)
| LogDoneAll (ordersSize : nat)
| SetReady (who : Party) (b : bool)
| Emit (who : Party).

(** An async function suspended at an [await].  The awaited promise is
    settled; the task is what runs when the job queue resumes it.
    - [AwaitAttemptOrder]: [freeOrderListener] at
      [await attemptToProcess(order, prepStage)], which yields [r]; [rest]
      are the indices of [allPreps[k]] not yet visited; [caller], when
      present, is the loop of [initOrderProcessing] awaiting this listener.
    - [AwaitAttemptStage]: the same for [freeStageListener], [rest] being
      the keys of the bucket not yet visited.
    - [AwaitListener]: [initOrderProcessing] at [await freeOrderListener],
      the listener having returned. *)
Inductive Task :=
| AwaitAttemptOrder (order : nat) (k : Z) (r : jsval) (rest : list nat)
    (caller : option (list nat))
| AwaitAttemptStage (prep : PrepRef) (r : jsval) (rest : list nat)
| AwaitListener (rest : list nat).

(** A registry bucket [orders[k]] is an object whose keys are order
    identifiers and whose value at key [i] is the order [i] itself.  Its
    keys are integers, which [for ... in] visits in ascending order: the
    bucket is the ascending list of its keys. *)
Abbreviation Bucket := (list nat).

Fixpoint bucket_insert (i : nat) (b : Bucket) : Bucket :=
  match b with
  | [] => [i]
  | j :: b' =>
      if (i <? j)%nat then i :: b
      else if (i =? j)%nat then b
      else j :: bucket_insert i b'
  end.

Fixpoint bucket_delete (i : nat) (b : Bucket) : Bucket :=
  match b with
  | [] => []
  | j :: b' => if (i =? j)%nat then bucket_delete i b' else j :: bucket_delete i b'
  end.

Record State := mkState {
  allPreps : gmap Z (list Prep);
  orders : gmap Z Bucket;
  ordersSize : nat;
  heap : gmap nat Order;          (* the Order objects, by identifier *)
  timers : list Timer;            (* pending setTimeout callbacks *)
  tasks : list Task;              (* suspended async functions *)
  trace : list Event
}.

Definition with_allPreps (f : gmap Z (list Prep) → gmap Z (list Prep)) (s : State) :=
  mkState (f (allPreps s)) (orders s) (ordersSize s) (heap s) (timers s) (tasks s) (trace s).
Definition with_orders (f : gmap Z Bucket → gmap Z Bucket) (s : State) :=
  mkState (allPreps s) (f (orders s)) (ordersSize s) (heap s) (timers s) (tasks s) (trace s).
Definition with_ordersSize (f : nat → nat) (s : State) :=
  mkState (allPreps s) (orders s) (f (ordersSize s)) (heap s) (timers s) (tasks s) (trace s).
Definition with_heap (f : gmap nat Order → gmap nat Order) (s : State) :=
  mkState (allPreps s) (orders s) (ordersSize s) (f (heap s)) (timers s) (tasks s) (trace s).
Definition with_timers (f : list Timer → list Timer) (s : State) :=
  mkState (allPreps s) (orders s) (ordersSize s) (heap s) (f (timers s)) (tasks s) (trace s).
Definition with_tasks (f : list Task → list Task) (s : State) :=
  mkState (allPreps s) (orders s) (ordersSize s) (heap s) (timers s) (f (tasks s)) (trace s).
Definition with_trace (f : list Event → list Event) (s : State) :=
  mkState (allPreps s) (orders s) (ordersSize s) (heap s) (timers s) (tasks s) (f (trace s)).

(** ** State and exception monad

    A computation runs on a state and either returns a value or throws; the
    writes made before a [throw] stay. *)

Inductive Outcome (A : Type) :=
| Ret (a : A) (s : State)
| Throw (e : Error) (s : State).
Arguments Ret {A} a s.
Arguments Throw {A} e s.

Definition M (A : Type) : Type := State → Outcome A.

Definition ret {A} (a : A) : M A := fun s => Ret a s.
Definition throw {A} (e : Error) : M A := fun s => Throw e s.
Definition bind {A B} (m : M A) (k : A → M B) : M B :=
  fun s => match m s with
           | Ret a s' => k a s'
           | Throw e s' => Throw e s'
           end.
Definition gets {A} (f : State → A) : M A := fun s => Ret (f s) s.
Definition modify (f : State → State) : M unit := fun s => Ret tt (f s).

Declare Scope js_scope.
Delimit Scope js_scope with js.
Notation "'let*' x ':=' m 'in' k" := (bind m (fun x => k))
  (at level 10, x pattern, m at level 100, k at level 200) : js_scope.
Notation "m ';;' k" := (bind m (fun _ => k))
  (at level 100, k at level 200, right associativity) : js_scope.
Local Open Scope js_scope.

(** The state an outcome ends in. *)
Definition state_of {A} (o : Outcome A) : State :=
  match o with Ret _ s => s | Throw _ s => s end.

(** Reading a property of an object that is not there throws. *)
Definition of_option {A} (x : option A) : M A :=
  match x with Some a => ret a | None => throw TypeError end.

Definition lookup_prep (prep : PrepRef) (s : State) : option Prep :=
  allPreps s !! prep.1 ≫= fun l => l !! prep.2.

Definition deref_order (order : nat) : M Order :=
  let* x := gets (fun s => heap s !! order) in of_option x.
Definition deref_prep (prep : PrepRef) : M Prep :=
  let* x := gets (lookup_prep prep) in of_option x.

Definition console_log (e : Event) : M unit :=
  modify (with_trace (fun t => t ++ [e])).

(** ** [Processor]: the [ready] flag of orders and workers *)

Definition set_o_ready (b : bool) (o : Order) : Order :=
  mkOrder (o_id o) (toppingsCount o) (stage o) b.
Definition set_stage (k : Z) (o : Order) : Order :=
  mkOrder (o_id o) (toppingsCount o) k (o_ready o).
Definition set_p_ready (b : bool) (p : Prep) : Prep :=
  mkPrep (p_class p) (p_id p) b.

(** The write [this.ready = b] of [who]. *)
Definition mark (who : Party) (b : bool) (s : State) : State :=
  with_trace (fun t => t ++ [SetReady who b])
    match who with
    | AnOrder order => with_heap (alter (set_o_ready b) order) s
    | APrep prep => with_allPreps (alter (alter (set_p_ready b) prep.2) prep.1) s
    end.

Definition disableReady (who : Party) : M unit := modify (mark who false).
Definition enableReady (who : Party) : M unit := modify (mark who true).

(** [setTimeout(callback, time)]: the callback always is the completion of
    the pairing, so the timer records the pairing. *)
Definition setTimeout (order : nat) (prep : PrepRef) (time : Z) : M unit :=
  modify (with_timers (fun ts => ts ++ [mkTimer order prep time])).

(** ** [attemptToProcess]

    The value is the one the promise of the async function is resolved
    with, that is, what [await attemptToProcess(...)] yields.  The body has
    one [await], of the value of [setTimeout] (a timer handle, no promise),
    after which the function ends without a [return]: the [return true] of
    the source is inside the timer callback. *)
Definition attemptToProcess (order : nat) (prepStage : PrepRef) : M jsval :=
  let* o := deref_order order in
  let* p := deref_prep prepStage in
  let canProcess := o_ready o && p_ready p && (stage o =? getStage p) in
  if negb canProcess then ret (JBool false)
  else
    let time := calculateProcessingTime p o in
    if negb (truthy (JNum time)) then ret (JBool false)
    else
      disableReady (APrep prepStage) ;;
      disableReady (AnOrder order) ;;
      console_log (LogProcessing order prepStage time) ;;
      setTimeout order prepStage time ;;
      ret JUndefined.

(** ** Registry *)

(** [logIfDoneProcessingAll] *)
Definition logIfDoneProcessingAll : M unit :=
  let* done := gets (fun s => orders s !! StageTypes.DONE) in
  let* done := of_option done in
  let* n := gets ordersSize in
  if (length done =? n)%nat then console_log (LogDoneAll n) else ret tt.

(** [moveOrder(order, priorStage)]; [delete] from, or assignment into, a
    bucket that does not exist throws. *)
Definition moveOrder (order : nat) (priorStage : Z) : M unit :=
  let* o := deref_order order in
  let* prior := gets (fun s => orders s !! priorStage) in
  let* prior := of_option prior in
  modify (with_orders (insert priorStage (bucket_delete (o_id o) prior))) ;;
  let* o := deref_order order in
  let* cur := gets (fun s => orders s !! stage o) in
  let* cur := of_option cur in
  modify (with_orders (insert (stage o) (bucket_insert (o_id o) cur))) ;;
  logIfDoneProcessingAll.

(** ** Suspension of async functions *)

(** [await]: the function stops here; the rest of it is queued. *)
Definition await (t : Task) : M unit :=
  modify (with_tasks (fun ts => ts ++ [t])).

(** An async function called without [await] (a listener called by [emit],
    the timer callback): an exception inside it rejects its promise and does
    not reach the caller; the writes it made stay. *)
Definition async_call (m : M unit) : M unit :=
  fun s => Ret tt (state_of (m s)).

(** The end of [freeOrderListener]: its promise is fulfilled, which wakes
    the [initOrderProcessing] loop when that is what awaits it. *)
Definition return_to (caller : option (list nat)) : M unit :=
  match caller with
  | None => ret tt
  | Some rest => await (AwaitListener rest)
  end.

(** ** Matching: the two listeners *)

(** The [for (let i in prepsAtStage)] loop of [freeOrderListener], from the
    indices [idxs] on, up to its next [await]. *)
Definition freeOrderListener_loop (order : nat) (k : Z) (idxs : list nat)
    (caller : option (list nat)) : M unit :=
  match idxs with
  | [] => return_to caller
  | i :: rest =>
      let* r := attemptToProcess order (k, i) in
      await (AwaitAttemptOrder order k r rest caller)
  end.

(** [freeOrderListener({order})]; [for ... in] over [undefined] does not
    iterate. *)
Definition freeOrderListener (order : nat) (caller : option (list nat)) : M unit :=
  let* o := deref_order order in
  if stage o =? StageTypes.DONE then return_to caller
  else
    let* prepsAtStage := gets (fun s => allPreps s !! stage o) in
    freeOrderListener_loop order (stage o)
      (seq 0 (length (default [] prepsAtStage))) caller.

(** The [for (let i in ordersAtStage)] loop of [freeStageListener]. *)
Definition freeStageListener_loop (prepStage : PrepRef) (keys : list nat) : M unit :=
  match keys with
  | [] => ret tt
  | order :: rest =>
      let* r := attemptToProcess order prepStage in
      await (AwaitAttemptStage prepStage r rest)
  end.

(** [freeStageListener({prepStage})] *)
Definition freeStageListener (prepStage : PrepRef) : M unit :=
  let* p := deref_prep prepStage in
  let* ordersAtStage := gets (fun s => orders s !! getStage p) in
  freeStageListener_loop prepStage (default [] ordersAtStage).

(** [this.emit(...)]: the trace records the event, then the one listener
    registered in the constructor runs, synchronously, up to its first
    [await]. *)
Definition emit (who : Party) : M unit :=
  console_log (Emit who) ;;
  match who with
  | AnOrder order => async_call (freeOrderListener order None)
  | APrep prep => async_call (freeStageListener prep)
  end.

(** ** Completion of a pairing *)

Definition of_result {A} (r : result A) : M A :=
  match r with Ok a => ret a | Err e => throw e end.

(** [Order.logIfDoneProcessing] *)
Definition logIfDoneProcessing (order : nat) : M unit :=
  let* o := deref_order order in
  if stage o =? StageTypes.DONE then console_log (LogDoneOrder order) else ret tt.

(** [Order.postProcess] *)
Definition Order_postProcess (order : nat) : M unit :=
  let* o := deref_order order in
  let priorStage := stage o in
  let* next := of_result (getNextStage (JNum priorStage)) in
  modify (with_heap (alter (set_stage next) order)) ;;
  logIfDoneProcessing order ;;
  moveOrder order priorStage ;;
  enableReady (AnOrder order) ;;
  emit (AnOrder order).

(** [PrepStage.postProcess] *)
Definition PrepStage_postProcess (prepStage : PrepRef) : M unit :=
  enableReady (APrep prepStage) ;;
  emit (APrep prepStage).

(** The callback given to [setTimeout] in [attemptToProcess]. *)
Definition timerCallback (order : nat) (prepStage : PrepRef) : M unit :=
  Order_postProcess order ;;
  PrepStage_postProcess prepStage.

(** ** Start of the script *)

Definition DEFAULT_NUM_ORDERS : nat := 10.
Definition MAX_TOPPINGS_COUNT : Z := 14.

Definition new_Prep (cl : PrepClass) (id : nat) : Prep := mkPrep cl id true.
Definition new_Order (id : nat) (toppingsCount : Z) : Order :=
  mkOrder id toppingsCount StageTypes.DOUGHCHEF true.

Definition initPreps (cl : PrepClass) (count : nat) : list Prep :=
  map (new_Prep cl) (seq 1 count).

(** [onScriptStart] *)
Definition onScriptStart : M unit :=
  modify (with_allPreps (insert StageTypes.DOUGHCHEF (initPreps DoughChef 2))) ;;
  modify (with_allPreps (insert StageTypes.TOPPINGCHEF (initPreps ToppingChef 3))) ;;
  modify (with_allPreps (insert StageTypes.OVEN (initPreps Oven 1))) ;;
  modify (with_allPreps (insert StageTypes.WAITER (initPreps Waiter 2))) ;;
  modify (with_orders (insert StageTypes.DOUGHCHEF [])) ;;
  modify (with_orders (insert StageTypes.TOPPINGCHEF [])) ;;
  modify (with_orders (insert StageTypes.OVEN [])) ;;
  modify (with_orders (insert StageTypes.WAITER [])) ;;
  modify (with_orders (insert StageTypes.DONE [])).

Fixpoint for_each {A} (l : list A) (body : A → M unit) : M unit :=
  match l with
  | [] => ret tt
  | x :: l' => body x ;; for_each l' body
  end.

(** The body of the loop of [initOrders]; [rnd i] is what
    [getRandomToppingsCount()] returns for order [i]. *)
Definition initOrders_body (rnd : nat → Z) (i : nat) : M unit :=
  let order := new_Order i (rnd i) in
  modify (with_heap (insert i order)) ;;
  let* b := gets (fun s => orders s !! stage order) in
  let* b := of_option b in
  modify (with_orders (insert (stage order) (bucket_insert (o_id order) b))) ;;
  modify (with_ordersSize S).

(** [initOrders(countOrders)] *)
Definition initOrders (rnd : nat → Z) (countOrders : nat) : M unit :=
  for_each (seq 1 countOrders) (initOrders_body rnd).

(** The loop of [initOrderProcessing] from the keys [keys] on, up to its
    next [await]. *)
Definition initOrderProcessing_loop (keys : list nat) : M unit :=
  match keys with
  | [] => ret tt
  | order :: rest => freeOrderListener order (Some rest)
  end.

(** [initOrderProcessing] *)
Definition initOrderProcessing : M unit :=
  let* ordersAtInitStage := gets (fun s => orders s !! StageTypes.DOUGHCHEF) in
  initOrderProcessing_loop (default [] ordersAtInitStage).

Definition empty_state : State := mkState ∅ ∅ 0 ∅ [] [] [].

(** The script, top to bottom. *)
Definition main (rnd : nat → Z) (orderCount : nat) : M unit :=
  onScriptStart ;;
  initOrders rnd orderCount ;;
  async_call initOrderProcessing.

(** ** The event loop *)

(** What a suspended function does when it is resumed, up to its next
    [await] or its end. *)
Definition resume (t : Task) : M unit :=
  match t with
  | AwaitAttemptOrder order k r rest caller =>
      if truthy r then return_to caller
      else freeOrderListener_loop order k rest caller
  | AwaitAttemptStage prepStage r rest =>
      if truthy r then ret tt
      else freeStageListener_loop prepStage rest
  | AwaitListener rest => initOrderProcessing_loop rest
  end.

(** One turn of the event loop.  Suspended functions run before any timer
    callback; which of them runs first depends on how many ticks each
    [await] takes, and which timer fires first on the delays and the clock:
    the relation allows every order. *)
Inductive step : State → State → Prop :=
| step_task s ts1 t ts2 :
    tasks s = ts1 ++ t :: ts2 →
    step s (state_of (resume t (with_tasks (fun _ => ts1 ++ ts2) s)))
| step_timer s tm1 tm tm2 :
    tasks s = [] →
    timers s = tm1 ++ tm :: tm2 →
    step s (state_of (timerCallback (t_order tm) (t_prep tm)
                        (with_timers (fun _ => tm1 ++ tm2) s))).

Definition random_ok (rnd : nat → Z) : Prop :=
  ∀ i, 0 ≤ rnd i < MAX_TOPPINGS_COUNT.

Definition init (rnd : nat → Z) (orderCount : nat) : State :=
  state_of (main rnd orderCount empty_state).

(** The states of the runs of the script. *)
Definition reachable (s : State) : Prop :=
  ∃ rnd orderCount, random_ok rnd ∧ rtc step (init rnd orderCount) s.

(** The job queue run in queue order for at most [fuel] resumptions; it
    stops when no function is suspended. *)
Fixpoint drain (fuel : nat) (s : State) : State :=
  match fuel with
  | O => s
  | S fuel' =>
      match tasks s with
      | [] => s
      | t :: ts => drain fuel' (state_of (resume t (with_tasks (fun _ => ts) s)))
      end
  end.

(** The events a computation added to the trace. *)
Definition new_events (s s' : State) : list Event :=
  drop (length (trace s)) (trace s').

(** ** The durations of the specification, in its time units

    The specification gives the base durations 7, 4, 10 and 5 time units
    and, for the topping stage, [ceil(base * complexity / 2)]. *)

Definition spec_base_duration (cl : PrepClass) : Z :=
  match cl with
  | DoughChef => 7
  | ToppingChef => 4
  | Oven => 10
  | Waiter => 5
  end.

Definition spec_duration (cl : PrepClass) (complexity : Z) : Z :=
  match cl with
  | ToppingChef => Qceiling (inject_Z (spec_base_duration ToppingChef * complexity) / 2)
  | _ => spec_base_duration cl
  end.

(** ** The revision src/script.js

    It numbers the stages from 0, keeps a worker busy through its
    [startTime] and has no guard on the duration.  [getNextStage] and
    [attemptToProcess] are embedded; an attempt is a function of the two
    objects it is given and of the value of [Date.now()], and yields the
    two objects as it leaves them, the delay of the timer it set, if any,
    and the value its promise is resolved with. *)
Module ScriptJs.

Module StageTypes.
Definition DOUGHCHEF : Z := 0.
Definition TOPPINGCHEF : Z := 1.
Definition OVEN : Z := 2.
Definition WAITER : Z := 3.
Definition DONE : Z := 4.
(** [StageTypes.Oven]: the object has no property of that name. *)
Definition Oven : jsval := JUndefined.
End StageTypes.

Definition getNextStage (stageType : jsval) : result Z :=
  if strict_eq stageType JNull then Ok StageTypes.DOUGHCHEF
  else if strict_eq stageType (JNum StageTypes.DOUGHCHEF) then Ok StageTypes.TOPPINGCHEF
  else if strict_eq stageType (JNum StageTypes.TOPPINGCHEF) then Ok StageTypes.OVEN
  else if strict_eq stageType StageTypes.Oven then Ok StageTypes.WAITER
  else if strict_eq stageType (JNum StageTypes.WAITER) then Ok StageTypes.DONE
  else Err InvalidStage.

Definition getConfig (cl : PrepClass) : PrepConfig :=
  match cl with
  | DoughChef => new_PrepConfig StageTypes.DOUGHCHEF 7
  | ToppingChef => new_PrepConfig StageTypes.TOPPINGCHEF 4
  | Oven => new_PrepConfig StageTypes.OVEN 10
  | Waiter => new_PrepConfig StageTypes.WAITER 5
  end.

Record Order := mkOrder {
  o_id : nat;
  toppingsCount : Z;
  stage : Z;
  ready : bool
}.

(** [startTime] is [null] or what [Date.now()] returned. *)
Record Prep := mkPrep {
  p_class : PrepClass;
  p_id : nat;
  startTime : jsval
}.

Definition Order_isReady (o : Order) : bool := ready o.
Definition Order_preProcess (o : Order) : Order :=
  mkOrder (o_id o) (toppingsCount o) (stage o) false.

Definition PrepStage_isReady (p : Prep) : bool := negb (truthy (startTime p)).
Definition PrepStage_preProcess (now : Z) (p : Prep) : Prep :=
  mkPrep (p_class p) (p_id p) (JNum now).

Definition getStage (p : Prep) : Z := stageType (getConfig (p_class p)).

Definition calculateProcessingTime (p : Prep) (order : Order) : Z :=
  match p_class p with
  | ToppingChef =>
      Math_ceil (inject_Z (msToPrep (getConfig ToppingChef) * toppingsCount order) / 2)
  | cl => msToPrep (getConfig cl)
  end.

Record Attempt := mkAttempt {
  a_value : jsval;          (* what [await attemptToProcess(...)] yields *)
  a_order : Order;
  a_prep : Prep;
  a_timer : option Z        (* the delay given to [setTimeout] *)
}.

Definition attemptToProcess (now : Z) (order : Order) (prepStage : Prep) : Attempt :=
  let canProcess :=
    Order_isReady order && PrepStage_isReady prepStage
    && (stage order =? getStage prepStage) in
  if negb canProcess then mkAttempt (JBool false) order prepStage None
  else
    let prepStage := PrepStage_preProcess now prepStage in
    let order := Order_preProcess order in
    let time := calculateProcessingTime prepStage order in
    mkAttempt JUndefined order prepStage (Some time).

End ScriptJs.

(** * Definitions used to state and prove the properties *)

(** The state after [onScriptStart]. *)
Definition started : State := state_of (onScriptStart empty_state).

(** The state after a pairing has been started. *)
Definition start_pairing (order : nat) (prep : PrepRef) (time : Z) (s : State) : State :=
  with_timers (fun ts => ts ++ [mkTimer order prep time])
    (with_trace (fun t => t ++ [LogProcessing order prep time])
       (mark (AnOrder order) false (mark (APrep prep) false s))).

(** The test a pairing has to pass to be started: the eligibility check and
    the guard on the duration. *)
Definition eligible (o : Order) (p : Prep) : bool :=
  o_ready o && p_ready p && (stage o =? getStage p)
  && negb (calculateProcessingTime p o =? 0).

Definition log_if (c : bool) (e : Event) (s : State) : State :=
  if c then with_trace (fun t => t ++ [e]) s else s.

(** The Done bucket holds as many keys as there are orders. *)
Definition done_all (s : State) : bool :=
  (length (default [] (orders s !! StageTypes.DONE)) =? ordersSize s)%nat.

(** The state after the order has been given its next stage and moved to
    the bucket of that stage. *)
Definition relocated (order : nat) (k : Z) (b1 b2 : list nat) (s : State) : State :=
  with_orders (insert (k + 1) (bucket_insert order b2))
    (with_orders (insert k (bucket_delete order b1))
       (log_if (k + 1 =? StageTypes.DONE) (LogDoneOrder order)
          (with_heap (alter (set_stage (k + 1)) order) s))).

(** The state in which [Order.postProcess] emits [FREEORDER]. *)
Definition advanced (order : nat) (k : Z) (b1 b2 : list nat) (s : State) : State :=
  let s1 := relocated order k b1 b2 s in
  mark (AnOrder order) true (log_if (done_all s1) (LogDoneAll (ordersSize s1)) s1).

(** The invariant of the scheduler: the five buckets exist; a bucket holds
    each of its keys once, and its keys are the orders at its stage; an
    order carries its key as identifier and a stage of the sequence; a
    worker of [allPreps[k]] is of stage [k]; no two pending timers share an
    order or a worker; the order and the worker of a pending timer are
    busy, at the same stage, and the delay is their processing time;
    [ordersSize] counts the orders. *)
Record Inv (s : State) : Prop := {
  inv_buckets : ∀ k, 1 ≤ k ≤ 5 → is_Some (orders s !! k);
  inv_registry : ∀ k b, orders s !! k = Some b →
    NoDup b ∧ ∀ i, i ∈ b ↔ ∃ o, heap s !! i = Some o ∧ stage o = k;
  inv_heap : ∀ i o, heap s !! i = Some o → o_id o = i ∧ 1 ≤ stage o ≤ 5;
  inv_preps : ∀ r p, lookup_prep r s = Some p → getStage p = r.1;
  inv_timer_orders : NoDup (map t_order (timers s));
  inv_timer_preps : NoDup (map t_prep (timers s));
  inv_timers : ∀ tm, tm ∈ timers s →
    ∃ o p, heap s !! t_order tm = Some o ∧ lookup_prep (t_prep tm) s = Some p
           ∧ o_ready o = false ∧ p_ready p = false ∧ stage o = getStage p
           ∧ t_delay tm = calculateProcessingTime p o;
  inv_size : ordersSize s = size (heap s)
}.

(** A property of states is [stable] when no attempt to pair and no change
    of the queue of suspended functions can break it.  Listeners do nothing
    else. *)
Record stable (P : State → Prop) : Prop := {
  stable_attempt : ∀ order prep s, P s → P (state_of (attemptToProcess order prep s));
  stable_tasks : ∀ f s, P s → P (with_tasks f s)
}.

(** A worker whose timer has fired and whose [postProcess] has not run yet:
    still marked busy, in no pending pairing. *)
Definition limbo (r : PrepRef) (s : State) : Prop :=
  (∃ p, lookup_prep r s = Some p ∧ p_ready p = false)
  ∧ r ∉ map t_prep (timers s).

(** The pairings a worker, or an order, takes part in. *)
Definition pairings_of_prep (r : PrepRef) (s : State) : list Timer :=
  filter (λ tm, t_prep tm = r) (timers s).
Definition pairings_of_order (i : nat) (s : State) : list Timer :=
  filter (λ tm, t_order tm = i) (timers s).

(** Example runs: [n] orders of [c] toppings each. *)
Definition kitchen (c : Z) (n : nat) : State := init (fun _ => c) n.

(** The party is marked busy. *)
Definition busy (x : Party) (s : State) : Prop :=
  match x with
  | AnOrder order => ∃ o, heap s !! order = Some o ∧ o_ready o = false
  | APrep prep => ∃ p, lookup_prep prep s = Some p ∧ p_ready p = false
  end.

(** The suspended function is the scan that a listener started for the
    party: [freeOrderListener] for an order, [freeStageListener] for a
    worker. *)
Definition scan_of (x : Party) (t : Task) : Prop :=
  match x, t with
  | AnOrder order, AwaitAttemptOrder order' _ _ _ None => order' = order
  | APrep prep, AwaitAttemptStage prep' _ _ => prep' = prep
  | _, _ => False
  end.

(** The job queue holds nothing but at most one scan of the party. *)
Definition only_scan (x : Party) (s : State) : Prop :=
  tasks s = [] ∨ ∃ t, tasks s = [t] ∧ scan_of x t.

(** The number of resumptions the scans in the queue still need. *)
Definition pending (s : State) : nat :=
  match tasks s with
  | [AwaitAttemptOrder _ _ _ rest _] => S (length rest)
  | [AwaitAttemptStage _ _ rest] => S (length rest)
  | _ => 0
  end.

(** The listener that [emit] calls for the party. *)
Definition listener (x : Party) : M unit :=
  match x with
  | AnOrder order => freeOrderListener order None
  | APrep prep => freeStageListener prep
  end.

(** What a scan of the party, or a part of it, may do to the timers: the
    queue again holds at most that scan; if the party was busy, no timer is
    set; at most one timer is set at all, and then the party is busy. *)
Definition scan_step (x : Party) (s s' : State) : Prop :=
  only_scan x s'
  ∧ (busy x s → timers s' = timers s ∧ busy x s')
  ∧ (timers s' = timers s ∨ (∃ tm, timers s' = timers s ++ [tm]) ∧ busy x s').

(** One resumption of some suspended function. *)
Definition task_turn (s s' : State) : Prop :=
  ∃ ts1 t ts2, tasks s = ts1 ++ t :: ts2
               ∧ s' = state_of (resume t (with_tasks (fun _ => ts1 ++ ts2) s)).

(** The state after the timer [tm] has fired and its callback has run up
    to the first [await] of each listener it called. *)
Definition fire (tm1 : list Timer) (tm : Timer) (tm2 : list Timer) (s : State) : State :=
  state_of (timerCallback (t_order tm) (t_prep tm)
              (with_timers (fun _ => tm1 ++ tm2) s)).

(** In the trace [t], whenever [trigger] emits its event, [who] has been
    marked free before. *)
Definition marked_free_before (who trigger : Party) (t : list Event) : Prop :=
  ∀ l1 l2, t = l1 ++ Emit trigger :: l2 → SetReady who true ∈ l1.

(** Both the order and the worker are marked free before either of the two
    triggers. *)
Definition both_free_before_triggers (order : nat) (prep : PrepRef)
    (t : list Event) : Prop :=
  marked_free_before (AnOrder order) (AnOrder order) t
  ∧ marked_free_before (APrep prep) (AnOrder order) t
  ∧ marked_free_before (AnOrder order) (APrep prep) t
  ∧ marked_free_before (APrep prep) (APrep prep) t.

(** Events that neither free a party nor trigger a listener. *)
Definition quiet_event (e : Event) : Prop :=
  match e with
  | SetReady _ true | Emit _ => False
  | _ => True
  end.
Definition quiet (l : list Event) : Prop := Forall quiet_event l.

(** The trace is [t] followed by quiet events. *)
Definition quiet_since (t : list Event) (s : State) : Prop :=
  ∃ q, trace s = t ++ q ∧ quiet q.

(** The kitchen with [n] orders of [c] toppings created and no listener
    called yet. *)
Definition seated (c : Z) (n : nat) : State :=
  state_of (initOrders (fun _ => c) n started).

(** The completion signal of [logIfDoneProcessingAll]. *)
Definition is_done_all (e : Event) : bool :=
  match e with LogDoneAll _ => true | _ => false end.

(** How many times the completion signal was logged. *)
Definition done_all_count (s : State) : nat :=
  length (List.filter is_done_all (trace s)).

(** Every order is at the Done stage. *)
Definition all_done (s : State) : Prop :=
  ∀ i o, heap s !! i = Some o → stage o = StageTypes.DONE.

(** The completion signal is logged at most once, and only with every order
    at the Done stage. *)
Definition signal_safe (s : State) : Prop :=
  (done_all_count s ≤ 1)%nat ∧ (done_all_count s = 1%nat → all_done s).

(** An order without topping is at the dough stage or, unpaired, at the
    topping stage. *)
Definition plain_orders_held (s : State) : Prop :=
  ∀ i o, heap s !! i = Some o → toppingsCount o = 0 →
    stage o = StageTypes.DOUGHCHEF
    ∨ (stage o = StageTypes.TOPPINGCHEF ∧ i ∉ map t_order (timers s)).

(** One schedule of the event loop: suspended functions in queue order,
    then the timer set first. *)
Fixpoint run (fuel : nat) (s : State) : State :=
  match fuel with
  | O => s
  | S fuel' =>
      match tasks s, timers s with
      | t :: ts, _ => run fuel' (state_of (resume t (with_tasks (fun _ => ts) s)))
      | [], tm :: tms => run fuel' (fire [] tm tms s)
      | [], [] => s
      end
  end.

(** The order [i] exists and has no topping. *)
Definition plain_order (i : nat) (s : State) : Prop :=
  ∃ o, heap s !! i = Some o ∧ toppingsCount o = 0.

(** * Further definitions *)

(** Once some order exists, the completion signal has been logged as soon
    as every order is at the Done stage. *)
Definition signal_complete (s : State) : Prop :=
  all_done s → (0 < size (heap s))%nat → done_all_count s = 1%nat.

(** The completion signal is not logged in a kitchen without orders. *)
Definition signal_has_order (s : State) : Prop :=
  done_all_count s = 1%nat → (0 < size (heap s))%nat.

(** What holds of the completion signal in every state of a run. *)
Definition signal_inv (s : State) : Prop :=
  signal_safe s ∧ signal_complete s ∧ signal_has_order s.

(** A random source that gives the order [i] no topping and every other
    order [c] toppings. *)
Definition plain_at (i : nat) (c : Z) : nat → Z :=
  fun j => if (j =? i)%nat then 0 else c.

(** The keys of the five buckets, stage after stage. *)
Definition registry_keys (s : State) : list nat :=
  default [] (orders s !! StageTypes.DOUGHCHEF)
  ++ default [] (orders s !! StageTypes.TOPPINGCHEF)
  ++ default [] (orders s !! StageTypes.OVEN)
  ++ default [] (orders s !! StageTypes.WAITER)
  ++ default [] (orders s !! StageTypes.DONE).

(** The order [i] exists, is at stage [k] or later, and has the given
    identifier and topping count. *)
Definition order_at_least (i : nat) (k : Z) (id : nat) (c : Z) (s : State) : Prop :=
  ∃ o, heap s !! i = Some o ∧ k ≤ stage o ∧ o_id o = id ∧ toppingsCount o = c.

(** The orders are those of the set [d]. *)
Definition orders_are (d : gset nat) (s : State) : Prop := dom (heap s) = d.

(** The lines "Done processing order [i]" of the log. *)
Definition is_done_order (i : nat) (e : Event) : bool :=
  match e with LogDoneOrder j => (j =? i)%nat | _ => false end.

Definition done_order_count (i : nat) (s : State) : nat :=
  length (List.filter (is_done_order i) (trace s)).

(** What the log should hold of an order: one line if it is at the Done
    stage, none otherwise, none if there is no such order. *)
Definition done_order_expected (i : nat) (s : State) : nat :=
  match heap s !! i with
  | Some o => if stage o =? StageTypes.DONE then 1%nat else 0%nat
  | None => 0%nat
  end.

Definition done_orders_logged (s : State) : Prop :=
  ∀ i, done_order_count i s = done_order_expected i s.

(** Every busy order and every busy worker is in a pending pairing, but
    for the worker [except]. *)
Definition busy_paired_but (except : option PrepRef) (s : State) : Prop :=
  (∀ i o, heap s !! i = Some o → o_ready o = false → i ∈ map t_order (timers s))
  ∧ (∀ r p, lookup_prep r s = Some p → p_ready p = false →
       r ∈ map t_prep (timers s) ∨ except = Some r).

(** * Proofs *)

(** ** Stage sequence *)

Lemma getNextStage_num (k : Z) :
  getNextStage (JNum k) =
    if decide (1 ≤ k ≤ 4) then Ok (k + 1) else Err InvalidStage.
Proof.
  unfold getNextStage, strict_eq, StageTypes.DOUGHCHEF, StageTypes.TOPPINGCHEF,
    StageTypes.OVEN, StageTypes.WAITER, StageTypes.DONE.
  repeat match goal with
         | |- context [?a =? ?b] => destruct (Z.eqb_spec a b)
         end; case_decide; (reflexivity || (f_equal; lia) || lia).
Qed.

Lemma getNextStage_not_num (v : jsval) :
  (∀ k, v ≠ JNum k) → getNextStage v = Err InvalidStage.
Proof. intros H. destruct v; try reflexivity. destruct (H n eq_refl). Qed.

(** ** Durations *)

Lemma Math_ceil_half (n : Z) : Math_ceil (inject_Z n / 2) = (n + 1) / 2.
Proof.
  unfold Math_ceil, Qceiling, Qfloor. cbn.
  rewrite Z.mul_1_r. change (Z.pos (1 * 2)) with 2.
  assert (H : n = 2 * ((n + 1) / 2) + (n + 1) mod 2 - 1)
    by (pose proof (Z.div_mod (n + 1) 2); lia).
  pose proof (Z.mod_pos_bound (n + 1) 2 ltac:(lia)) as Hm.
  rewrite <- (Z.div_unique_pos (- n) 2 (- ((n + 1) / 2)) (1 - (n + 1) mod 2)); lia.
Qed.

Lemma getStage_range (p : Prep) : 1 ≤ getStage p ≤ 4.
Proof. unfold getStage. destruct (p_class p); split; by compute. Qed.

Lemma getStage_topping (p : Prep) :
  getStage p = StageTypes.TOPPINGCHEF ↔ p_class p = ToppingChef.
Proof. unfold getStage. destruct (p_class p); compute; split; congruence. Qed.

(** ** Buckets *)

Lemma elem_of_bucket_insert (i x : nat) (b : list nat) :
  x ∈ bucket_insert i b ↔ x = i ∨ x ∈ b.
Proof.
  induction b as [|j b IH]; cbn [bucket_insert bucket_delete].
  - rewrite list_elem_of_singleton, elem_of_nil. tauto.
  - destruct (Nat.ltb_spec i j); [apply elem_of_cons|].
    destruct (Nat.eqb_spec i j) as [->|].
    + rewrite elem_of_cons. tauto.
    + rewrite !elem_of_cons, IH. tauto.
Qed.

Lemma elem_of_bucket_delete (i x : nat) (b : list nat) :
  x ∈ bucket_delete i b ↔ x ≠ i ∧ x ∈ b.
Proof.
  induction b as [|j b IH]; cbn [bucket_insert bucket_delete].
  - rewrite elem_of_nil. tauto.
  - destruct (Nat.eqb_spec i j) as [->|]; rewrite ?elem_of_cons, IH.
    + split; [tauto|]. intros [? [?|?]]; [congruence|tauto].
    + split; [intros [->|?]; split; auto; tauto|tauto].
Qed.

Lemma NoDup_bucket_insert (i : nat) (b : list nat) :
  i ∉ b → NoDup b → NoDup (bucket_insert i b).
Proof.
  induction b as [|j b IH]; cbn [bucket_insert bucket_delete]; intros Hi Hb.
  - apply NoDup_singleton.
  - destruct (Nat.ltb_spec i j); [by apply NoDup_cons|].
    destruct (Nat.eqb_spec i j); [done|].
    apply NoDup_cons in Hb as [Hj Hb]. apply NoDup_cons. split.
    + rewrite elem_of_bucket_insert. intros [->|?]; [lia|done].
    + apply IH; [|done]. intros ?. apply Hi. apply elem_of_cons; by right.
Qed.

Lemma NoDup_bucket_delete (i : nat) (b : list nat) :
  NoDup b → NoDup (bucket_delete i b).
Proof.
  induction b as [|j b IH]; cbn [bucket_insert bucket_delete]; intros Hb; [done|].
  apply NoDup_cons in Hb as [Hj Hb].
  destruct (Nat.eqb_spec i j); [by apply IH|].
  apply NoDup_cons. split; [|by apply IH].
  rewrite elem_of_bucket_delete. tauto.
Qed.

(** ** The monad *)

Lemma bind_Ret {A B} (m : M A) (k : A → M B) s a s' :
  m s = Ret a s' → bind m k s = k a s'.
Proof. unfold bind. by intros ->. Qed.

Lemma bind_Throw {A B} (m : M A) (k : A → M B) s e s' :
  m s = Throw e s' → bind m k s = Throw e s'.
Proof. unfold bind. by intros ->. Qed.

Lemma deref_order_eq order s :
  deref_order order s =
    match heap s !! order with Some o => Ret o s | None => Throw TypeError s end.
Proof. unfold deref_order, bind, gets, of_option. by destruct (heap s !! order). Qed.

Lemma deref_prep_eq prep s :
  deref_prep prep s =
    match lookup_prep prep s with Some p => Ret p s | None => Throw TypeError s end.
Proof. unfold deref_prep, bind, gets, of_option. by destruct (lookup_prep prep s). Qed.

(** ** [attemptToProcess], as an equation *)



Lemma attemptToProcess_eq order prep s :
  attemptToProcess order prep s =
    match heap s !! order, lookup_prep prep s with
    | Some o, Some p =>
        if eligible o p
        then Ret JUndefined (start_pairing order prep (calculateProcessingTime p o) s)
        else Ret (JBool false) s
    | _, _ => Throw TypeError s
    end.
Proof.
  unfold attemptToProcess, bind at 1. rewrite deref_order_eq.
  destruct (heap s !! order) as [o|]; [|done].
  unfold bind at 1. rewrite deref_prep_eq.
  destruct (lookup_prep prep s) as [p|]; [|done].
  unfold eligible, truthy.
  destruct (o_ready o && p_ready p && (stage o =? getStage p)); [|done].
  cbn [negb andb]. destruct (calculateProcessingTime p o =? 0); done.
Qed.

(** ** Reading the state after a write *)

Lemma heap_mark_order i b s j o' :
  heap (mark (AnOrder i) b s) !! j = Some o' ↔
    ∃ o, heap s !! j = Some o ∧ o' = (if decide (i = j) then set_o_ready b o else o).
Proof.
  cbn. rewrite lookup_alter_Some. case_decide; naive_solver.
Qed.

Lemma heap_mark_prep r b s : heap (mark (APrep r) b s) = heap s.
Proof. reflexivity. Qed.

Lemma lookup_prep_mark_order i b s r :
  lookup_prep r (mark (AnOrder i) b s) = lookup_prep r s.
Proof. reflexivity. Qed.

Lemma allPreps_mark_prep r b s :
  allPreps (mark (APrep r) b s) = alter (alter (set_p_ready b) r.2) r.1 (allPreps s).
Proof. reflexivity. Qed.

Lemma lookup_prep_mark_prep r b s r' p' :
  lookup_prep r' (mark (APrep r) b s) = Some p' ↔
    ∃ p, lookup_prep r' s = Some p ∧ p' = (if decide (r = r') then set_p_ready b p else p).
Proof.
  unfold lookup_prep. rewrite allPreps_mark_prep.
  destruct (decide (r = r')) as [<-|Hne].
  - rewrite lookup_alter_eq.
    destruct (allPreps s !! r.1) as [l|]; cbn; [|naive_solver].
    rewrite list_lookup_alter_eq. destruct (l !! r.2); naive_solver.
  - destruct (decide (r.1 = r'.1)) as [Hk|Hk].
    + rewrite <- Hk, lookup_alter_eq.
      destruct (allPreps s !! r.1) as [l|]; cbn; [|naive_solver].
      rewrite list_lookup_alter_ne; [naive_solver|].
      intros Hi. apply Hne. destruct r, r'; cbn in *; congruence.
    + rewrite lookup_alter_ne by done. naive_solver.
Qed.

Lemma size_alter {A} (f : A → A) (i : nat) (m : gmap nat A) :
  size (alter f i m) = size m.
Proof. by rewrite <- !(size_dom (D := gset nat)), dom_alter_L. Qed.

Lemma heap_start_pairing order prep time s j o' :
  heap (start_pairing order prep time s) !! j = Some o' ↔
    ∃ o, heap s !! j = Some o
         ∧ o' = (if decide (order = j) then set_o_ready false o else o).
Proof. apply (heap_mark_order order false s). Qed.

Lemma lookup_prep_start_pairing order prep time s r p' :
  lookup_prep r (start_pairing order prep time s) = Some p' ↔
    ∃ p, lookup_prep r s = Some p
         ∧ p' = (if decide (prep = r) then set_p_ready false p else p).
Proof. apply (lookup_prep_mark_prep prep false s). Qed.

(** ** The invariant of the scheduler *)


Lemma Inv_with_tasks f s : Inv s → Inv (with_tasks f s).
Proof. intros []. by constructor. Qed.

Lemma Inv_with_trace f s : Inv s → Inv (with_trace f s).
Proof. intros []. by constructor. Qed.

Lemma timer_order_busy s tm o :
  Inv s → tm ∈ timers s → heap s !! t_order tm = Some o → o_ready o = false.
Proof.
  intros HI Htm Ho. destruct (inv_timers s HI tm Htm) as (o' & p & ? & ? & ? & ? & ? & ?).
  congruence.
Qed.

Lemma timer_prep_busy s tm p :
  Inv s → tm ∈ timers s → lookup_prep (t_prep tm) s = Some p → p_ready p = false.
Proof.
  intros HI Htm Hp. destruct (inv_timers s HI tm Htm) as (o & p' & ? & ? & ? & ? & ? & ?).
  congruence.
Qed.

Lemma Inv_start_pairing order prep s o p :
  Inv s → heap s !! order = Some o → lookup_prep prep s = Some p →
  eligible o p = true →
  Inv (start_pairing order prep (calculateProcessingTime p o) s).
Proof.
  intros HI Ho Hp He. unfold eligible in He.
  apply andb_prop in He as [He _]. apply andb_prop in He as [He Hst].
  apply andb_prop in He as [Hor Hpr]. apply Z.eqb_eq in Hst.
  assert (Hno : order ∉ map t_order (timers s)).
  { intros (tm & -> & Htm)%list_elem_of_fmap.
    pose proof (timer_order_busy s tm o HI Htm Ho). congruence. }
  assert (Hnp : prep ∉ map t_prep (timers s)).
  { intros (tm & -> & Htm)%list_elem_of_fmap.
    pose proof (timer_prep_busy s tm p HI Htm Hp). congruence. }
  destruct HI as [Hb Hr Hh Hps Hto Htp Ht Hsz].
  constructor.
  - exact Hb.
  - intros k b Hk. destruct (Hr k b Hk) as [Hnd Hin]. split; [done|].
    intros i. rewrite Hin. split.
    + intros (o0 & Ho0 & Hs0). eexists. rewrite heap_start_pairing. split; [eauto|].
      by case_decide.
    + intros (o0 & (o1 & Ho1 & ->)%heap_start_pairing & Hs0).
      exists o1. split; [done|]. by case_decide.
  - intros i o' (o1 & Ho1 & ->)%heap_start_pairing.
    destruct (Hh i o1 Ho1). by case_decide.
  - intros r p' (p1 & Hp1 & ->)%lookup_prep_start_pairing.
    rewrite <- (Hps r p1 Hp1). by case_decide.
  - cbn. rewrite map_app. cbn. apply NoDup_app. split; [done|]. split.
    + intros x Hx ->%list_elem_of_singleton. done.
    + apply NoDup_singleton.
  - cbn. rewrite map_app. cbn. apply NoDup_app. split; [done|]. split.
    + intros x Hx ->%list_elem_of_singleton. done.
    + apply NoDup_singleton.
  - intros tm. cbn [start_pairing with_timers timers].
    rewrite elem_of_app, list_elem_of_singleton.
    intros [Htm| ->].
    + destruct (Ht tm Htm) as (o1 & p1 & Ho1 & Hp1 & ? & ? & ? & ?).
      exists (if decide (order = t_order tm) then set_o_ready false o1 else o1),
             (if decide (prep = t_prep tm) then set_p_ready false p1 else p1).
      split; [apply heap_start_pairing; eauto|].
      split; [apply lookup_prep_start_pairing; eauto|].
      repeat case_decide; done.
    + cbn [t_order t_prep]. exists (set_o_ready false o), (set_p_ready false p).
      split; [apply heap_start_pairing; exists o; by rewrite decide_True|].
      split; [apply lookup_prep_start_pairing; exists p; by rewrite decide_True|].
      done.
  - cbn. by rewrite size_alter.
Qed.

(** ** Properties kept by matching *)


Section Stable.
Variable P : State → Prop.
Hypothesis HP : stable P.

Lemma stable_return_to caller s : P s → P (state_of (return_to caller s)).
Proof. destruct caller; cbn; [apply HP|done]. Qed.

Lemma stable_attempt_await order prep (k : jsval → Task) s :
  P s →
  P (state_of ((let* r := attemptToProcess order prep in await (k r)) s)).
Proof.
  intros Hs. unfold bind.
  pose proof (stable_attempt P HP order prep s Hs) as Ha.
  destruct (attemptToProcess order prep s) as [r s'|e s']; cbn in *; [|done].
  by apply HP.
Qed.

Lemma stable_freeOrderListener_loop order k idxs caller s :
  P s → P (state_of (freeOrderListener_loop order k idxs caller s)).
Proof.
  destruct idxs as [|i rest]; cbn [freeOrderListener_loop].
  - apply stable_return_to.
  - apply stable_attempt_await.
Qed.

Lemma stable_freeOrderListener order caller s :
  P s → P (state_of (freeOrderListener order caller s)).
Proof.
  intros Hs. unfold freeOrderListener, bind at 1. rewrite deref_order_eq.
  destruct (heap s !! order) as [o|]; [|done].
  destruct (stage o =? StageTypes.DONE); [by apply stable_return_to|].
  unfold bind, gets. by apply stable_freeOrderListener_loop.
Qed.

Lemma stable_freeStageListener_loop prep keys s :
  P s → P (state_of (freeStageListener_loop prep keys s)).
Proof.
  destruct keys as [|order rest]; cbn [freeStageListener_loop]; [done|].
  apply stable_attempt_await.
Qed.

Lemma stable_freeStageListener prep s :
  P s → P (state_of (freeStageListener prep s)).
Proof.
  intros Hs. unfold freeStageListener, bind at 1. rewrite deref_prep_eq.
  destruct (lookup_prep prep s) as [p|]; [|done].
  unfold bind, gets. by apply stable_freeStageListener_loop.
Qed.

Lemma stable_emit_call who s :
  P (with_trace (fun t => t ++ [Emit who]) s) → P (state_of (emit who s)).
Proof.
  intros Hs. unfold emit, bind, console_log, modify.
  destruct who; cbn [async_call state_of].
  - by apply stable_freeOrderListener.
  - by apply stable_freeStageListener.
Qed.

Lemma stable_initOrderProcessing_loop keys s :
  P s → P (state_of (initOrderProcessing_loop keys s)).
Proof.
  destruct keys; cbn [initOrderProcessing_loop]; [done|].
  apply stable_freeOrderListener.
Qed.

Lemma stable_resume t s : P s → P (state_of (resume t s)).
Proof.
  destruct t as [order k r rest caller|prep r rest|rest]; cbn [resume].
  - destruct (truthy r); [apply stable_return_to|apply stable_freeOrderListener_loop].
  - destruct (truthy r); [done|apply stable_freeStageListener_loop].
  - apply stable_initOrderProcessing_loop.
Qed.
End Stable.

Lemma Inv_attempt order prep s :
  Inv s → Inv (state_of (attemptToProcess order prep s)).
Proof.
  intros HI. rewrite attemptToProcess_eq.
  destruct (heap s !! order) as [o|] eqn:Ho; [|done].
  destruct (lookup_prep prep s) as [p|] eqn:Hp; [|done].
  destruct (eligible o p) eqn:He; [|done].
  by apply (Inv_start_pairing order prep s o p).
Qed.

Lemma Inv_stable : stable Inv.
Proof.
  split.
  - apply Inv_attempt.
  - apply Inv_with_tasks.
Qed.

Lemma orders_with_orders f s : orders (with_orders f s) = f (orders s).
Proof. reflexivity. Qed.

Lemma logIfDoneProcessing_eq order o s :
  heap s !! order = Some o →
  logIfDoneProcessing order s
  = Ret tt (log_if (stage o =? StageTypes.DONE) (LogDoneOrder order) s).
Proof.
  intros Ho. unfold logIfDoneProcessing, bind. rewrite deref_order_eq, Ho.
  unfold log_if. by destruct (stage o =? StageTypes.DONE).
Qed.

Lemma logIfDoneProcessingAll_eq s :
  is_Some (orders s !! StageTypes.DONE) →
  logIfDoneProcessingAll s = Ret tt (log_if (done_all s) (LogDoneAll (ordersSize s)) s).
Proof.
  intros [b Hb]. unfold logIfDoneProcessingAll, bind, gets, done_all, log_if.
  rewrite Hb. cbn. by destruct (length b =? ordersSize s)%nat.
Qed.

Lemma moveOrder_eq order o k b1 b2 s :
  heap s !! order = Some o → o_id o = order → stage o ≠ k →
  orders s !! k = Some b1 → orders s !! stage o = Some b2 →
  is_Some (orders s !! StageTypes.DONE) →
  moveOrder order k s =
    let s1 := with_orders (insert (stage o) (bucket_insert order b2))
                (with_orders (insert k (bucket_delete order b1)) s) in
    Ret tt (log_if (done_all s1) (LogDoneAll (ordersSize s1)) s1).
Proof.
  intros Ho Hid Hne Hk Hk' Hd. unfold moveOrder.
  unfold bind at 1. rewrite deref_order_eq, Ho.
  unfold bind at 1. unfold gets at 1.
  unfold bind at 1. rewrite Hk. cbn [of_option ret].
  unfold bind at 1. unfold modify at 1.
  unfold bind at 1. rewrite deref_order_eq. cbn [with_orders heap]. rewrite Ho.
  unfold bind at 1. unfold gets at 1. rewrite orders_with_orders.
  rewrite lookup_insert_ne by done. rewrite Hk'.
  unfold bind at 1. cbn [of_option ret].
  unfold bind at 1. unfold modify at 1. rewrite Hid.
  apply logIfDoneProcessingAll_eq. rewrite !orders_with_orders.
  rewrite !lookup_insert_is_Some'. auto.
Qed.

Lemma Order_postProcess_eq order o b1 b2 s :
  heap s !! order = Some o → o_id o = order → 1 ≤ stage o ≤ 4 →
  orders s !! stage o = Some b1 → orders s !! (stage o + 1) = Some b2 →
  is_Some (orders s !! StageTypes.DONE) →
  Order_postProcess order s = emit (AnOrder order) (advanced order (stage o) b1 b2 s).
Proof.
  intros Ho Hid Hst Hk Hk' Hd. unfold Order_postProcess.
  unfold bind at 1. rewrite deref_order_eq, Ho.
  unfold bind at 1. rewrite getNextStage_num, decide_True by done. cbn [of_result ret].
  unfold bind at 1. unfold modify at 1.
  set (s0 := with_heap _ s).
  assert (Ho0 : heap s0 !! order = Some (set_stage (stage o + 1) o)).
  { subst s0. cbn. by rewrite lookup_alter_eq, Ho. }
  unfold bind at 1. rewrite (logIfDoneProcessing_eq order _ s0 Ho0).
  cbn [set_stage stage].
  set (s1 := log_if _ _ s0).
  assert (Hs1 : heap s1 = heap s0 ∧ orders s1 = orders s).
  { subst s1 s0. unfold log_if. by destruct (stage o + 1 =? StageTypes.DONE). }
  destruct Hs1 as [Hh1 Ho1].
  unfold bind at 1.
  rewrite (moveOrder_eq order (set_stage (stage o + 1) o) (stage o) b1 b2 s1);
    cbn [set_stage stage o_id]; rewrite ?Hh1, ?Ho1; try done; try lia.
Qed.

Lemma heap_log_if c e s : heap (log_if c e s) = heap s.
Proof. by destruct c. Qed.
Lemma orders_log_if c e s : orders (log_if c e s) = orders s.
Proof. by destruct c. Qed.
Lemma allPreps_log_if c e s : allPreps (log_if c e s) = allPreps s.
Proof. by destruct c. Qed.
Lemma timers_log_if c e s : timers (log_if c e s) = timers s.
Proof. by destruct c. Qed.
Lemma tasks_log_if c e s : tasks (log_if c e s) = tasks s.
Proof. by destruct c. Qed.
Lemma ordersSize_log_if c e s : ordersSize (log_if c e s) = ordersSize s.
Proof. by destruct c. Qed.
Lemma lookup_prep_log_if c e s r : lookup_prep r (log_if c e s) = lookup_prep r s.
Proof. by destruct c. Qed.

Lemma heap_advanced order k b1 b2 s :
  heap (advanced order k b1 b2 s)
  = alter (set_o_ready true) order (alter (set_stage (k + 1)) order (heap s)).
Proof.
  unfold advanced, relocated. cbn [mark with_trace heap with_heap].
  by rewrite heap_log_if; cbn [with_orders heap]; rewrite heap_log_if.
Qed.

Lemma heap_advanced_lookup order k b1 b2 s j o' :
  heap (advanced order k b1 b2 s) !! j = Some o' ↔
    ∃ o, heap s !! j = Some o
         ∧ o' = (if decide (order = j)
                 then set_o_ready true (set_stage (k + 1) o) else o).
Proof.
  rewrite heap_advanced, !lookup_alter. case_decide.
  - subst j. rewrite decide_True by done.
    destruct (heap s !! order) as [o|]; cbn; split.
    + intros [= <-]. eauto.
    + by intros (o1 & [= <-] & ->).
    + done.
    + by intros (o1 & ? & _).
  - split; [eauto|]. by intros (o1 & ? & ->).
Qed.

Lemma orders_advanced order k b1 b2 s :
  orders (advanced order k b1 b2 s)
  = <[k + 1 := bucket_insert order b2]> (<[k := bucket_delete order b1]> (orders s)).
Proof.
  unfold advanced, relocated. cbn [mark with_trace orders with_heap].
  by rewrite orders_log_if; cbn [with_orders orders]; rewrite orders_log_if.
Qed.

Lemma lookup_prep_advanced order k b1 b2 s r :
  lookup_prep r (advanced order k b1 b2 s) = lookup_prep r s.
Proof.
  unfold advanced, relocated. rewrite lookup_prep_mark_order, lookup_prep_log_if.
  unfold lookup_prep. cbn [with_orders allPreps]. by rewrite allPreps_log_if.
Qed.

Lemma timers_advanced order k b1 b2 s : timers (advanced order k b1 b2 s) = timers s.
Proof.
  unfold advanced, relocated. cbn [mark with_trace timers with_heap].
  by rewrite timers_log_if; cbn [with_orders timers]; rewrite timers_log_if.
Qed.

Lemma tasks_advanced order k b1 b2 s : tasks (advanced order k b1 b2 s) = tasks s.
Proof.
  unfold advanced, relocated. cbn [mark with_trace tasks with_heap].
  by rewrite tasks_log_if; cbn [with_orders tasks]; rewrite tasks_log_if.
Qed.

Lemma ordersSize_advanced order k b1 b2 s :
  ordersSize (advanced order k b1 b2 s) = ordersSize s.
Proof.
  unfold advanced, relocated. cbn [mark with_trace ordersSize with_heap].
  by rewrite ordersSize_log_if; cbn [with_orders ordersSize]; rewrite ordersSize_log_if.
Qed.

Lemma Inv_advanced order o b1 b2 s :
  Inv s → heap s !! order = Some o → 1 ≤ stage o ≤ 4 →
  order ∉ map t_order (timers s) →
  orders s !! stage o = Some b1 → orders s !! (stage o + 1) = Some b2 →
  Inv (advanced order (stage o) b1 b2 s).
Proof.
  intros [Hb Hr Hh Hps Hto Htp Ht Hsz] Ho Hst Hno Hk Hk'.
  set (k := stage o) in *.
  assert (Hnew : ∀ i o', heap (advanced order k b1 b2 s) !! i = Some o' →
            (i = order ∧ stage o' = k + 1 ∧ o_id o' = o_id o)
            ∨ (i ≠ order ∧ heap s !! i = Some o')).
  { intros i o' (o1 & Ho1 & ->)%heap_advanced_lookup. case_decide.
    - subst i. left. assert (o1 = o) as -> by congruence. done.
    - right. auto. }
  assert (Hold : ∀ i o1, heap s !! i = Some o1 → i ≠ order →
            heap (advanced order k b1 b2 s) !! i = Some o1).
  { intros i o1 Ho1 Hne. apply heap_advanced_lookup. exists o1.
    rewrite decide_False by done. done. }
  assert (Hme : heap (advanced order k b1 b2 s) !! order
                = Some (set_o_ready true (set_stage (k + 1) o))).
  { apply heap_advanced_lookup. exists o. by rewrite decide_True. }
  constructor.
  - intros k0 Hk0. rewrite orders_advanced, !lookup_insert_is_Some'. auto.
  - intros k0 b. rewrite orders_advanced.
    destruct (decide (k0 = k + 1)) as [->|Hne1].
    { rewrite lookup_insert_eq. intros [= <-].
      destruct (Hr _ _ Hk') as [Hnd Hin]. split.
      - apply NoDup_bucket_insert; [|done]. rewrite Hin.
        intros (o1 & Ho1 & Hs1). assert (o1 = o) by congruence. subst o1. lia.
      - intros i. rewrite elem_of_bucket_insert, Hin. split.
        + intros [->|(o1 & Ho1 & Hs1)]; [eauto|].
          exists o1. split; [|done]. apply Hold; [done|].
          intros ->. assert (o1 = o) by congruence. subst o1. lia.
        + intros (o' & [(-> & _)|(Hne & Ho')]%Hnew & Hs'); [by left|right; eauto]. }
    rewrite lookup_insert_ne by done.
    destruct (decide (k0 = k)) as [->|Hne2].
    { rewrite lookup_insert_eq. intros [= <-].
      destruct (Hr _ _ Hk) as [Hnd Hin]. split.
      - by apply NoDup_bucket_delete.
      - intros i. rewrite elem_of_bucket_delete, Hin. split.
        + intros (Hne & o1 & Ho1 & Hs1). eauto.
        + intros (o' & [(-> & ? & _)|(Hne & Ho')]%Hnew & Hs'); [lia|eauto]. }
    rewrite lookup_insert_ne by done. intros Hk0.
    destruct (Hr _ _ Hk0) as [Hnd Hin]. split; [done|].
    intros i. rewrite Hin. split.
    + intros (o1 & Ho1 & Hs1). exists o1. split; [|done]. apply Hold; [done|].
      intros ->. assert (o1 = o) by congruence. subst o1. done.
    + intros (o' & [(-> & ? & _)|(Hne & Ho')]%Hnew & Hs'); [lia|eauto].
  - intros i o' [(-> & Hs' & Hid)|(Hne & Ho')]%Hnew.
    + destruct (Hh _ _ Ho). split; [congruence|lia].
    + by apply Hh.
  - intros r p. rewrite lookup_prep_advanced. apply Hps.
  - by rewrite timers_advanced.
  - by rewrite timers_advanced.
  - intros tm. rewrite timers_advanced. intros Htm.
    destruct (Ht tm Htm) as (o1 & p1 & Ho1 & Hp1 & ? & ? & ? & ?).
    exists o1, p1. rewrite lookup_prep_advanced. split; [|done].
    apply Hold; [done|]. intros Heq. apply Hno. rewrite <- Heq.
    apply list_elem_of_fmap. eauto.
  - rewrite ordersSize_advanced, heap_advanced, !size_alter. done.
Qed.

(** ** The completion callback *)

Lemma emit_Ret who s : emit who s = Ret tt (state_of (emit who s)).
Proof. unfold emit, bind, console_log, modify. by destruct who. Qed.


Lemma limbo_stable r : stable (limbo r).
Proof.
  split; [|done].
  intros order prep s [(p & Hp & Hb) Hn]. rewrite attemptToProcess_eq.
  destruct (heap s !! order) as [o|] eqn:Ho; [|by (split; eauto)].
  destruct (lookup_prep prep s) as [p'|] eqn:Hp'; [|by (split; eauto)].
  destruct (eligible o p') eqn:He; [|by (split; eauto)].
  cbn [state_of].
  assert (prep ≠ r).
  { intros ->. unfold eligible in He. assert (p' = p) by congruence. subst p'.
    rewrite Hb in He. by rewrite andb_false_r in He. }
  split.
  - exists p. split; [|done]. apply lookup_prep_start_pairing. exists p.
    by rewrite decide_False.
  - cbn. rewrite map_app, elem_of_app. cbn. rewrite list_elem_of_singleton.
    intros [?|?]; [done|congruence].
Qed.

Lemma Inv_mark_prep_free r s :
  Inv s → r ∉ map t_prep (timers s) → Inv (mark (APrep r) true s).
Proof.
  intros [Hb Hr Hh Hps Hto Htp Ht Hsz] Hn. constructor; try done.
  - intros r' p' (p1 & Hp1 & ->)%lookup_prep_mark_prep.
    rewrite <- (Hps r' p1 Hp1). by case_decide.
  - intros tm Htm. destruct (Ht tm Htm) as (o1 & p1 & Ho1 & Hp1 & ? & ? & ? & ?).
    exists o1, p1. split; [done|]. split; [|done].
    apply lookup_prep_mark_prep. exists p1. rewrite decide_False; [done|].
    intros ->. apply Hn. apply list_elem_of_fmap. eauto.
Qed.

Lemma NoDup_app_middle {A} (l1 l2 : list A) (x : A) :
  NoDup (l1 ++ x :: l2) → NoDup (l1 ++ l2) ∧ x ∉ l1 ++ l2.
Proof.
  intros H. assert (Hp : l1 ++ x :: l2 ≡ₚ x :: (l1 ++ l2))
    by (symmetry; apply Permutation_middle).
  rewrite Hp in H. apply NoDup_cons in H. tauto.
Qed.

(** What the invariant says of a pending timer, and of the state once the
    timer has been taken off the list. *)
Lemma Inv_fire s tm1 tm tm2 s0 :
  Inv s → timers s = tm1 ++ tm :: tm2 →
  s0 = with_timers (fun _ => tm1 ++ tm2) s →
  Inv s0 ∧ limbo (t_prep tm) s0 ∧ (t_order tm ∉ map t_order (timers s0))
  ∧ ∃ o p b1 b2, heap s0 !! t_order tm = Some o
      ∧ lookup_prep (t_prep tm) s0 = Some p
      ∧ o_ready o = false ∧ stage o = getStage p ∧ 1 ≤ stage o ≤ 4
      ∧ o_id o = t_order tm
      ∧ orders s0 !! stage o = Some b1 ∧ orders s0 !! (stage o + 1) = Some b2
      ∧ is_Some (orders s0 !! StageTypes.DONE).
Proof.
  intros HI Htm ->. pose proof HI as [Hb Hr Hh Hps Hto Htp Ht Hsz].
  rewrite Htm in Hto, Htp. rewrite map_app in Hto, Htp. cbn in Hto, Htp.
  apply NoDup_app_middle in Hto as [Hto Hno].
  apply NoDup_app_middle in Htp as [Htp Hnp].
  rewrite <- map_app in Hto, Htp, Hno, Hnp.
  assert (Hin : tm ∈ timers s) by (rewrite Htm; set_solver).
  destruct (Ht tm Hin) as (o & p & Ho & Hp & Hor & Hpr & Hst & Hdl).
  pose proof (getStage_range p) as Hrange.
  split; [|split; [|split]].
  - constructor; try done. intros tm' Htm'. apply Ht. rewrite Htm.
    cbn in Htm'. set_solver.
  - split; [eauto|done].
  - done.
  - destruct (Hb (stage o) ltac:(lia)) as [b1 Hb1].
    destruct (Hb (stage o + 1) ltac:(lia)) as [b2 Hb2].
    exists o, p, b1, b2. destruct (Hh _ _ Ho).
    repeat split; try done; try lia. by apply Hb.
Qed.

Lemma timerCallback_eq s0 order prep o b1 b2 :
  heap s0 !! order = Some o → o_id o = order → 1 ≤ stage o ≤ 4 →
  orders s0 !! stage o = Some b1 → orders s0 !! (stage o + 1) = Some b2 →
  is_Some (orders s0 !! StageTypes.DONE) →
  timerCallback order prep s0 =
    emit (APrep prep)
      (mark (APrep prep) true
         (state_of (emit (AnOrder order) (advanced order (stage o) b1 b2 s0)))).
Proof.
  intros Ho Hid Hst Hk Hk' Hd. unfold timerCallback, bind.
  rewrite (Order_postProcess_eq order o b1 b2) by done.
  rewrite emit_Ret. reflexivity.
Qed.

(** Under the invariant the callback of a pending timer returns: neither
    [getNextStage] nor [moveOrder] throws. *)
Lemma timerCallback_returns s tm1 tm tm2 :
  Inv s → timers s = tm1 ++ tm :: tm2 →
  timerCallback (t_order tm) (t_prep tm) (with_timers (λ _, tm1 ++ tm2) s)
  = Ret tt (fire tm1 tm tm2 s).
Proof.
  intros HI Htm.
  destruct (Inv_fire s tm1 tm tm2 _ HI Htm eq_refl)
    as (_ & _ & _ & o & p & b1 & b2 & Ho & _ & _ & _ & Hr & Hid & Hk & Hk' & Hd).
  unfold fire. rewrite (timerCallback_eq _ _ _ o b1 b2) by done.
  apply emit_Ret.
Qed.

(** ** The invariant holds in every state of every run *)

Lemma Inv_step s s' : Inv s → step s s' → Inv s'.
Proof.
  intros HI Hstep. destruct Hstep as [s ts1 t ts2 Hts|s tm1 tm tm2 Hts Htm].
  - apply (stable_resume Inv Inv_stable). by apply Inv_with_tasks.
  - destruct (Inv_fire s tm1 tm tm2 _ HI Htm eq_refl)
      as (HI0 & Hl & Hno & o & p & b1 & b2 & Ho & Hp & Hor & Hst & Hr & Hid & Hk & Hk' & Hd).
    rewrite (timerCallback_eq _ _ _ o b1 b2) by done.
    apply (stable_emit_call Inv Inv_stable), Inv_with_trace.
    apply Inv_mark_prep_free.
    + apply (stable_emit_call Inv Inv_stable), Inv_with_trace. by apply Inv_advanced.
    + apply (stable_emit_call _ (limbo_stable (t_prep tm))).
      destruct Hl as [(p' & Hp' & Hb') Hn]. split.
      * exists p'. split; [|done].
        change (lookup_prep (t_prep tm) (advanced (t_order tm) (stage o) b1 b2
                  (with_timers (λ _, tm1 ++ tm2) s)) = Some p').
        by rewrite lookup_prep_advanced.
      * change (t_prep tm ∉ map t_prep (timers (advanced (t_order tm) (stage o) b1 b2
                  (with_timers (λ _, tm1 ++ tm2) s)))).
        by rewrite timers_advanced.
Qed.

(** ** The state the script starts the event loop in *)

Lemma initPreps_lookup cl n i p :
  initPreps cl n !! i = Some p → p_class p = cl ∧ p_ready p = true.
Proof.
  unfold initPreps. rewrite list_lookup_fmap.
  destruct (seq 1 n !! i); cbn; [|done]. by intros [= <-].
Qed.


Lemma Inv_started : Inv started.
Proof.
  constructor; cbn -[initPreps].
  - intros k Hk.
    assert (k = 1 ∨ k = 2 ∨ k = 3 ∨ k = 4 ∨ k = 5) as [->|[->|[->|[->| ->]]]]
      by lia; by eexists.
  - intros k b Hk.
    assert (b = []) as ->.
    { unfold StageTypes.DONE, StageTypes.WAITER, StageTypes.OVEN,
        StageTypes.TOPPINGCHEF, StageTypes.DOUGHCHEF in Hk.
      repeat (rewrite lookup_insert in Hk; case_decide; [congruence|]).
      by rewrite lookup_empty in Hk. }
    split; [constructor|]. intros i. rewrite elem_of_nil, lookup_empty.
    split; [done|]. by intros (o & ? & _).
  - intros i o. by rewrite lookup_empty.
  - intros [k i] p. unfold lookup_prep. cbn -[initPreps].
    unfold StageTypes.DONE, StageTypes.WAITER, StageTypes.OVEN,
      StageTypes.TOPPINGCHEF, StageTypes.DOUGHCHEF.
    repeat (rewrite lookup_insert; case_decide;
            [subst k; cbn -[initPreps]; intros [Hc _]%initPreps_lookup;
             unfold getStage; rewrite Hc; reflexivity|]).
    by rewrite lookup_empty.
  - constructor.
  - constructor.
  - intros tm. by rewrite elem_of_nil.
  - done.
Qed.

Lemma initOrders_body_eq rnd i b s :
  orders s !! StageTypes.DOUGHCHEF = Some b →
  initOrders_body rnd i s =
    Ret tt (with_ordersSize S
              (with_orders (insert StageTypes.DOUGHCHEF (bucket_insert i b))
                 (with_heap (insert i (new_Order i (rnd i))) s))).
Proof.
  intros Hb. unfold initOrders_body, bind, modify, gets. cbn [stage new_Order with_heap orders].
  by rewrite Hb.
Qed.

Lemma Inv_initOrders_body rnd i b s :
  Inv s → heap s !! i = None → orders s !! StageTypes.DOUGHCHEF = Some b →
  Inv (with_ordersSize S
         (with_orders (insert StageTypes.DOUGHCHEF (bucket_insert i b))
            (with_heap (insert i (new_Order i (rnd i))) s))).
Proof.
  intros [Hb Hr Hh Hps Hto Htp Ht Hsz] Hi Hk.
  constructor; cbn [with_ordersSize with_orders with_heap orders heap timers ordersSize].
  - intros k Hk0. rewrite lookup_insert_is_Some'. auto.
  - intros k b0. destruct (decide (k = StageTypes.DOUGHCHEF)) as [->|Hne].
    + rewrite lookup_insert_eq. intros [= <-]. destruct (Hr _ _ Hk) as [Hnd Hin].
      split.
      * apply NoDup_bucket_insert; [|done]. rewrite Hin. intros (o & Ho & _). congruence.
      * intros j. rewrite elem_of_bucket_insert, Hin. split.
        -- intros [->|(o & Ho & Hs)].
           ++ eexists. by rewrite lookup_insert_eq.
           ++ exists o. rewrite lookup_insert_ne by congruence. done.
        -- intros (o & Ho & Hs). destruct (decide (i = j)) as [->|Hij]; [by left|].
           rewrite lookup_insert_ne in Ho by done. eauto.
    + rewrite lookup_insert_ne by done. intros Hk0.
      destruct (Hr _ _ Hk0) as [Hnd Hin]. split; [done|].
      intros j. rewrite Hin. split.
      * intros (o & Ho & Hs). exists o. rewrite lookup_insert_ne by congruence. done.
      * intros (o & Ho & Hs). destruct (decide (i = j)) as [->|Hij].
        -- rewrite lookup_insert_eq in Ho. injection Ho as <-. done.
        -- rewrite lookup_insert_ne in Ho by done. eauto.
  - intros j o. destruct (decide (i = j)) as [->|Hij].
    + rewrite lookup_insert_eq. intros [= <-]. split; [done|]. by compute.
    + rewrite lookup_insert_ne by done. apply Hh.
  - exact Hps.
  - exact Hto.
  - exact Htp.
  - intros tm Htm. destruct (Ht tm Htm) as (o & p & Ho & Hp & ?).
    exists o, p. split; [|done]. rewrite lookup_insert_ne; [done|]. congruence.
  - rewrite map_size_insert_None by done. by rewrite Hsz.
Qed.

Lemma initOrders_loop rnd n : ∀ a s,
  Inv s → (∀ j, is_Some (heap s !! j) → (j < a)%nat) →
  ∃ s', for_each (seq a n) (initOrders_body rnd) s = Ret tt s' ∧ Inv s'
        ∧ tasks s' = tasks s ∧ timers s' = timers s ∧ trace s' = trace s
        ∧ (∀ j o, heap s' !! j = Some o →
             heap s !! j = Some o ∨ o = new_Order j (rnd j))
        ∧ (∀ j o, heap s !! j = Some o → heap s' !! j = Some o)
        ∧ (∀ j, (a ≤ j < a + n)%nat → heap s' !! j = Some (new_Order j (rnd j))).
Proof.
  induction n as [|n IH]; intros a s HI Hlt; cbn [seq for_each].
  - exists s. do 5 (split; [done|]). split; [auto|]. split; [auto|]. intros j ?. lia.
  - destruct (inv_buckets s HI StageTypes.DOUGHCHEF ltac:(by compute)) as [b Hb].
    assert (Hnone : heap s !! a = None).
    { destruct (heap s !! a) eqn:E; [|done]. specialize (Hlt a ltac:(by eexists)). lia. }
    unfold bind. rewrite (initOrders_body_eq rnd a b s Hb).
    destruct (IH (S a) _ (Inv_initOrders_body rnd a b s HI Hnone Hb))
      as (s' & Hs' & HI' & ? & ? & ? & Hold & Hkeep & Hnew).
    { intros j. cbn. destruct (decide (a = j)) as [->|Hne]; [lia|].
      rewrite lookup_insert_ne by done. intros ?%Hlt. lia. }
    exists s'. rewrite Hs'. do 5 (split; [done|]). split; [|split].
    + intros j o [Ho| ->]%Hold; [|by right]. cbn in Ho.
      destruct (decide (a = j)) as [->|Hne].
      * rewrite lookup_insert_eq in Ho. injection Ho as <-. by right.
      * rewrite lookup_insert_ne in Ho by done. by left.
    + intros j o Ho. apply Hkeep. cbn. rewrite lookup_insert_ne; [done|]. congruence.
    + intros j Hj. destruct (decide (a = j)) as [<-|Hne]; [|apply Hnew; lia].
      apply Hkeep. cbn. by rewrite lookup_insert_eq.
Qed.

Lemma main_eq rnd orderCount :
  ∃ s1, initOrders rnd orderCount started = Ret tt s1 ∧ Inv s1
        ∧ tasks s1 = [] ∧ timers s1 = [] ∧ trace s1 = []
        ∧ init rnd orderCount = state_of (initOrderProcessing s1)
        ∧ (∀ j o, heap s1 !! j = Some o → o = new_Order j (rnd j))
        ∧ (∀ j, (1 ≤ j ≤ orderCount)%nat → heap s1 !! j = Some (new_Order j (rnd j))).
Proof.
  destruct (initOrders_loop rnd orderCount 1 started Inv_started)
    as (s1 & Hs1 & HI1 & Hta & Hti & Htr & Hold & _ & Hnew).
  { intros j [o Ho]. change (heap started) with (∅ : gmap nat Order) in Ho.
    by rewrite lookup_empty in Ho. }
  exists s1. do 5 (split; [done|]). split; [|split].
  - unfold init, main. unfold bind at 1.
    change (onScriptStart empty_state) with (Ret tt started). cbn iota beta.
    unfold bind. fold (initOrders rnd orderCount) in Hs1. by rewrite Hs1.
  - intros j o [Ho|?]%Hold; [|done].
    change (heap started) with (∅ : gmap nat Order) in Ho. by rewrite lookup_empty in Ho.
  - intros j Hj. apply Hnew. lia.
Qed.

Lemma Inv_init rnd orderCount : Inv (init rnd orderCount).
Proof.
  destruct (main_eq rnd orderCount) as (s1 & _ & HI1 & _ & _ & _ & -> & _).
  unfold initOrderProcessing, bind, gets.
  by apply (stable_initOrderProcessing_loop Inv Inv_stable).
Qed.

Lemma Inv_steps s s' : Inv s → rtc step s s' → Inv s'.
Proof. induction 2; eauto using Inv_step. Qed.

Lemma Inv_reachable s : reachable s → Inv s.
Proof.
  intros (rnd & n & _ & Hs). eapply Inv_steps; [apply Inv_init|done].
Qed.

(** ** Busy parties cannot be paired *)

Lemma attempt_busy_order order prep o s :
  heap s !! order = Some o → o_ready o = false →
  state_of (attemptToProcess order prep s) = s.
Proof.
  intros Ho Hb. rewrite attemptToProcess_eq, Ho.
  destruct (lookup_prep prep s) as [p|]; [|done].
  unfold eligible. by rewrite Hb.
Qed.

Lemma attempt_busy_prep order prep p s :
  lookup_prep prep s = Some p → p_ready p = false →
  state_of (attemptToProcess order prep s) = s.
Proof.
  intros Hp Hb. rewrite attemptToProcess_eq, Hp.
  destruct (heap s !! order) as [o|]; [|done].
  unfold eligible. by rewrite Hb, andb_false_r.
Qed.

Lemma NoDup_fmap_filter_length {A B} `{EqDecision B} (f : A → B) (l : list A) (y : B) :
  NoDup (map f l) → (length (filter (λ x, f x = y) l) ≤ 1)%nat.
Proof.
  induction l as [|x l IH]; cbn [map]; intros Hnd; [cbn; lia|].
  apply NoDup_cons in Hnd as [Hx Hnd]. rewrite filter_cons.
  case_decide as Hxy; [|by apply IH]. cbn.
  destruct (filter (λ x0, f x0 = y) l) as [|z l'] eqn:Hf; [cbn; lia|].
  assert (Hz : z ∈ filter (λ x0, f x0 = y) l) by (rewrite Hf; apply elem_of_cons; auto).
  apply list_elem_of_filter in Hz as [Hfz Hz]. destruct Hx.
  rewrite Hxy, <- Hfz. apply list_elem_of_fmap. eauto.
Qed.


(** C1.  Mutual exclusion of pairings.  A pairing is active from the
    [setTimeout] of [attemptToProcess] until its timer fires, so the active
    pairings of a state are its pending timers.  In every state of every
    run, a worker is in at most one of them and an order is in at most one
    of them; and as long as a pairing is active, an [attemptToProcess] that
    involves its order or its worker starts nothing: it leaves the state as
    it is. *)
Theorem C1_mutual_exclusion (s : State) :
  reachable s →
  (∀ r, (length (pairings_of_prep r s) ≤ 1)%nat)
  ∧ (∀ i, (length (pairings_of_order i s) ≤ 1)%nat)
  ∧ (∀ tm order prep,
       tm ∈ timers s → order = t_order tm ∨ prep = t_prep tm →
       state_of (attemptToProcess order prep s) = s).
Proof.
  intros HI%Inv_reachable. split; [|split].
  - intros r. apply NoDup_fmap_filter_length, (inv_timer_preps s HI).
  - intros i. apply NoDup_fmap_filter_length, (inv_timer_orders s HI).
  - intros tm order prep Htm Hor.
    destruct (inv_timers s HI tm Htm) as (o & p & Ho & Hp & Hob & Hpb & _).
    destruct Hor as [-> | ->].
    + by apply (attempt_busy_order _ _ o).
    + by apply (attempt_busy_prep _ _ p).
Qed.

Lemma reachable_init rnd orderCount : random_ok rnd → reachable (init rnd orderCount).
Proof. intros H. exists rnd, orderCount. split; [done|apply rtc_refl]. Qed.

Lemma random_ok_const (c : Z) : 0 ≤ c < MAX_TOPPINGS_COUNT → random_ok (λ _, c).
Proof. intros H i. exact H. Qed.

Lemma drain_steps fuel : ∀ s, rtc step s (drain fuel s).
Proof.
  induction fuel as [|fuel IH]; intros s; cbn [drain]; [apply rtc_refl|].
  destruct (tasks s) as [|t ts] eqn:Hts; [apply rtc_refl|].
  eapply rtc_l; [|apply IH]. by apply (step_task s [] t ts).
Qed.

Lemma reachable_drain fuel s : reachable s → reachable (drain fuel s).
Proof.
  intros (rnd & n & Hr & Hs). exists rnd, n. split; [done|].
  etrans; [done|apply drain_steps].
Qed.

Lemma reachable_kitchen fuel c n :
  0 ≤ c < MAX_TOPPINGS_COUNT → reachable (drain fuel (kitchen c n)).
Proof. intros H. by apply reachable_drain, reachable_init, random_ok_const. Qed.

(** Three orders, three toppings each: once the start of the script has
    settled, two of them are paired, each with a dough chef of its own. *)
Lemma C1_mutual_exclusion_witness :
  reachable (drain 20 (kitchen 3 3))
  ∧ length (timers (drain 20 (kitchen 3 3))) = 2%nat
  ∧ (∀ r, (length (pairings_of_prep r (drain 20 (kitchen 3 3))) ≤ 1)%nat).
Proof.
  assert (H : reachable (drain 20 (kitchen 3 3))).
  { apply reachable_kitchen. by compute. }
  split; [exact H|]. split; [vm_compute; reflexivity|].
  apply (C1_mutual_exclusion _ H).
Defined.

(** C3.  Registry consistency.  In every state of every run, every order
    created is a key of the bucket of its current stage, once, and of no
    other bucket; the Done bucket exists (from [onScriptStart] on).  And
    [moveOrder] is one synchronous step: it ends with the order out of the
    bucket of the prior stage and in the bucket of its stage, having
    suspended nothing and set no timer. *)
Theorem C3_registry_consistency (s : State) :
  reachable s →
  (∀ i o, heap s !! i = Some o →
     (∃ b, orders s !! stage o = Some b ∧ i ∈ b ∧ NoDup b)
     ∧ (∀ k b, orders s !! k = Some b → i ∈ b → k = stage o))
  ∧ is_Some (orders s !! StageTypes.DONE)
  ∧ is_Some (orders started !! StageTypes.DONE)
  ∧ (∀ order o k b1 b2,
       heap s !! order = Some o → stage o ≠ k →
       orders s !! k = Some b1 → orders s !! stage o = Some b2 →
       ∃ s', moveOrder order k s = Ret tt s'
             ∧ orders s' !! k = Some (bucket_delete order b1)
             ∧ orders s' !! stage o = Some (bucket_insert order b2)
             ∧ (order ∉ bucket_delete order b1)
             ∧ order ∈ bucket_insert order b2
             ∧ tasks s' = tasks s ∧ timers s' = timers s).
Proof.
  intros HI%Inv_reachable. split; [|split; [|split]].
  - intros i o Ho. destruct (inv_heap s HI i o Ho) as [_ Hst].
    destruct (inv_buckets s HI (stage o) Hst) as [b Hb].
    destruct (inv_registry s HI _ _ Hb) as [Hnd Hin]. split.
    + exists b. split; [done|]. split; [|done]. apply Hin. eauto.
    + intros k b' Hb' Hi. destruct (inv_registry s HI _ _ Hb') as [_ Hin'].
      apply Hin' in Hi as (o' & Ho' & <-). congruence.
  - apply (inv_buckets s HI). by compute.
  - by eexists.
  - intros order o k b1 b2 Ho Hne Hk Hk'.
    destruct (inv_heap s HI _ _ Ho) as [Hid _].
    eexists. split.
    + apply (moveOrder_eq order o k b1 b2); try done.
      apply (inv_buckets s HI). by compute.
    + cbn zeta. rewrite orders_log_if, tasks_log_if, timers_log_if.
      rewrite !orders_with_orders. split; [|split; [|split; [|split]]].
      * rewrite lookup_insert_ne by done. by rewrite lookup_insert_eq.
      * by rewrite lookup_insert_eq.
      * rewrite elem_of_bucket_delete. tauto.
      * rewrite elem_of_bucket_insert. tauto.
      * done.
Qed.

Lemma C3_registry_consistency_witness :
  reachable (kitchen 3 2)
  ∧ is_Some (orders (kitchen 3 2) !! StageTypes.DONE).
Proof.
  assert (H : reachable (kitchen 3 2)).
  { apply reachable_init, random_ok_const. by compute. }
  split; [exact H|]. apply (C3_registry_consistency _ H).
Defined.

(** ** The stage sequence of the two revisions *)

(** The successor function of the revision with stages 1 to 5 is the one
    the specification describes. *)
Lemma getNextStage_sequence :
  getNextStage (JNum StageTypes.DOUGHCHEF) = Ok StageTypes.TOPPINGCHEF
  ∧ getNextStage (JNum StageTypes.TOPPINGCHEF) = Ok StageTypes.OVEN
  ∧ getNextStage (JNum StageTypes.OVEN) = Ok StageTypes.WAITER
  ∧ getNextStage (JNum StageTypes.WAITER) = Ok StageTypes.DONE
  ∧ getNextStage (JNum StageTypes.DONE) = Err InvalidStage
  ∧ (∀ v, v ≠ JNum StageTypes.DOUGHCHEF → v ≠ JNum StageTypes.TOPPINGCHEF →
          v ≠ JNum StageTypes.OVEN → v ≠ JNum StageTypes.WAITER →
          getNextStage v = Err InvalidStage).
Proof.
  do 5 (split; [reflexivity|]).
  intros v H1 H2 H3 H4. destruct v as [| |b|k|str]; try reflexivity.
  rewrite getNextStage_num. case_decide as Hk; [|done].
  unfold StageTypes.DOUGHCHEF, StageTypes.TOPPINGCHEF, StageTypes.OVEN,
    StageTypes.WAITER in *.
  assert (k = 1 ∨ k = 2 ∨ k = 3 ∨ k = 4) as [->|[->|[->| ->]]] by lia; congruence.
Qed.

(** C2.  In src/script.js the case of the oven stage is written
    [case StageTypes.Oven], a property that [StageTypes] does not have: the
    case compares with [undefined], the oven stage matches no case, and
    [getNextStage] throws where the claim has it return the waiter stage.
    The same revision returns the dough stage for [null] and the waiter
    stage for [undefined], two inputs the claim has it throw for. *)
Theorem C2_script_js_oven_falls_through :
  ScriptJs.getNextStage (JNum ScriptJs.StageTypes.OVEN) = Err InvalidStage
  ∧ ScriptJs.getNextStage JUndefined = Ok ScriptJs.StageTypes.WAITER
  ∧ ScriptJs.getNextStage JNull = Ok ScriptJs.StageTypes.DOUGHCHEF.
Proof. repeat split. Qed.

(** ** Durations *)

Lemma calculateProcessingTime_topping (p : Prep) (o : Order) :
  p_class p = ToppingChef →
  calculateProcessingTime p o = (4000 * toppingsCount o + 1) / 2.
Proof.
  intros Hc. unfold calculateProcessingTime. rewrite Hc. apply Math_ceil_half.
Qed.

(** C5.  The duration formula.  For a topping chef the processing time is
    the least integer not below [B * toppingsCount / 2], i.e. the ceiling of
    that quotient, [B] being the [msToPrep] of the topping stage; for a
    worker of any other class it is the [msToPrep] of its own stage,
    whatever the order. *)
Theorem C5_duration_formula (p : Prep) (order : Order) :
  match p_class p with
  | ToppingChef =>
      let x := msToPrep toppingChefConfig * toppingsCount order in
      x ≤ 2 * calculateProcessingTime p order < x + 2
  | cl =>
      calculateProcessingTime p order = msToPrep (getConfig cl)
      ∧ ∀ order', calculateProcessingTime p order' = calculateProcessingTime p order
  end.
Proof.
  destruct (p_class p) eqn:Hc.
  2:{ rewrite (calculateProcessingTime_topping p order Hc).
      change (msToPrep toppingChefConfig) with 4000. cbn zeta.
      pose proof (Z.div_mod (4000 * toppingsCount order + 1) 2 ltac:(lia)).
      pose proof (Z.mod_pos_bound (4000 * toppingsCount order + 1) 2 ltac:(lia)).
      lia. }
  all: unfold calculateProcessingTime; rewrite Hc; split; [reflexivity|].
  all: intros order'; reflexivity.
Qed.

Lemma spec_duration_topping (c : Z) : spec_duration ToppingChef c = 2 * c.
Proof.
  unfold spec_duration. change (Qceiling ?x) with (Math_ceil x).
  rewrite Math_ceil_half. change (spec_base_duration ToppingChef) with 4.
  replace (4 * c + 1) with (1 + (2 * c) * 2) by lia.
  rewrite Z.div_add by lia. reflexivity.
Qed.

Lemma calculateProcessingTime_ms (p : Prep) (o : Order) :
  calculateProcessingTime p o = 1000 * spec_duration (p_class p) (toppingsCount o).
Proof.
  destruct (p_class p) eqn:Hc.
  2:{ rewrite (calculateProcessingTime_topping p o Hc), spec_duration_topping.
      replace (4000 * toppingsCount o + 1) with (1 + (2000 * toppingsCount o) * 2) by lia.
      rewrite Z.div_add by lia. change (1 / 2) with 0. lia. }
  all: unfold calculateProcessingTime; rewrite Hc; reflexivity.
Qed.


(** ** What [attemptToProcess] returns *)

Lemma calculateProcessingTime_zero (p : Prep) (o : Order) :
  calculateProcessingTime p o = 0 ↔ p_class p = ToppingChef ∧ toppingsCount o = 0.
Proof.
  rewrite calculateProcessingTime_ms.
  destruct (p_class p) eqn:Hc; rewrite ?spec_duration_topping; cbn; split;
    try (intros [? ?]); try split; try congruence; try lia.
Qed.

(** With the guard on the duration, a pairing whose processing time is zero
    is not started and nothing is written: the state is left as it is. *)
Lemma zero_duration_rejected order prep o p s :
  heap s !! order = Some o → lookup_prep prep s = Some p →
  calculateProcessingTime p o = 0 →
  attemptToProcess order prep s = Ret (JBool false) s.
Proof.
  intros Ho Hp Ht. rewrite attemptToProcess_eq, Ho, Hp.
  unfold eligible. rewrite Ht. by rewrite andb_false_r.
Qed.

(** Whatever the state and the pair, the value of an attempt is falsy. *)
Lemma attemptToProcess_falsy order prep s :
  match attemptToProcess order prep s with
  | Ret r _ => truthy r = false
  | Throw _ _ => True
  end.
Proof.
  rewrite attemptToProcess_eq.
  destruct (heap s !! order); [|done]. destruct (lookup_prep prep s); [|done].
  by destruct (eligible _ _).
Qed.

(** An attempt that starts a pairing yields [undefined]. *)
Lemma attemptToProcess_started order prep o p s :
  heap s !! order = Some o → lookup_prep prep s = Some p → eligible o p = true →
  attemptToProcess order prep s
  = Ret JUndefined (start_pairing order prep (calculateProcessingTime p o) s).
Proof. intros Ho Hp He. by rewrite attemptToProcess_eq, Ho, Hp, He. Qed.


(** C9.  One order with three toppings and the kitchen of [onScriptStart]:
    the first attempt of the order, with the first dough chef, starts the
    pairing (the timer is set, both are busy) and yields [undefined], which
    is falsy; the loop of the listener that made the attempt therefore goes
    on to the second dough chef instead of returning.  The [return true] of
    the source is the value of the timer callback, not of
    [attemptToProcess].  The attempt of src/script.js yields [undefined] in
    the same way. *)
Theorem C9_started_pairing_yields_undefined :
  (∃ s1, initOrders (λ _, 3) 1 started = Ret tt s1
    ∧ match attemptToProcess 1 (StageTypes.DOUGHCHEF, 0%nat) s1 with
      | Ret r s2 =>
          r = JUndefined ∧ truthy r = false
          ∧ timers s2 = [mkTimer 1 (StageTypes.DOUGHCHEF, 0%nat) 7000]
          ∧ tasks (state_of (freeOrderListener 1 None s1))
            = [AwaitAttemptOrder 1 StageTypes.DOUGHCHEF JUndefined [1%nat] None]
          ∧ tasks (drain 1 (state_of (freeOrderListener 1 None s1)))
            = [AwaitAttemptOrder 1 StageTypes.DOUGHCHEF (JBool false) [] None]
      | Throw _ _ => False
      end)
  ∧ (let a := ScriptJs.attemptToProcess 1700000000000
                (ScriptJs.mkOrder 1 3 ScriptJs.StageTypes.DOUGHCHEF true)
                (ScriptJs.mkPrep DoughChef 1 JNull) in
     ScriptJs.a_timer a = Some 7000
     ∧ ScriptJs.a_value a = JUndefined
     ∧ truthy (ScriptJs.a_value a) = false).
Proof.
  split.
  - eexists. split; [reflexivity|]. vm_compute. repeat split.
  - repeat split.
Qed.

(** ** One scan, one pairing *)

Lemma busy_with_tasks x f s : busy x s → busy x (with_tasks f s).
Proof. by destruct x. Qed.

(** An attempt that involves a party starts nothing when the party is
    busy; when it starts a pairing, the party is busy afterwards. *)
Lemma attempt_involving x order prep s :
  x = AnOrder order ∨ x = APrep prep →
  (busy x s → state_of (attemptToProcess order prep s) = s)
  ∧ (timers (state_of (attemptToProcess order prep s)) = timers s
     ∨ (∃ tm, timers (state_of (attemptToProcess order prep s)) = timers s ++ [tm])
       ∧ busy x (state_of (attemptToProcess order prep s))).
Proof.
  intros Hx. split.
  - destruct Hx as [-> | ->]; intros (y & Hy & Hb).
    + by apply (attempt_busy_order _ _ y).
    + by apply (attempt_busy_prep _ _ y).
  - rewrite attemptToProcess_eq.
    destruct (heap s !! order) as [o|] eqn:Ho; [|by left].
    destruct (lookup_prep prep s) as [p|] eqn:Hp; [|by left].
    destruct (eligible o p); [|by left].
    right. split; [by eexists|]. destruct Hx as [-> | ->].
    + exists (set_o_ready false o). split; [|done].
      apply heap_start_pairing. exists o. by rewrite decide_True.
    + exists (set_p_ready false p). split; [|done].
      apply lookup_prep_start_pairing. exists p. by rewrite decide_True.
Qed.

Lemma scan_step_tasks x f s s' :
  scan_step x s s' → scan_step x (with_tasks f s) s'.
Proof.
  intros (H1 & H2 & H3). split; [done|]. split; [|done].
  intros Hb. apply H2. by destruct x.
Qed.

Lemma scan_step_refl x s : only_scan x s → scan_step x s s.
Proof. intros H. split; [done|]. split; [done|by left]. Qed.

Lemma scan_step_trans x s1 s2 s3 :
  scan_step x s1 s2 → scan_step x s2 s3 → scan_step x s1 s3.
Proof.
  intros (_ & Hb12 & Hg12) (Ho3 & Hb23 & Hg23). split; [done|]. split.
  - intros Hb. destruct (Hb12 Hb) as [E Hb2]. rewrite <- E. by apply Hb23.
  - destruct Hg12 as [E|[(tm & E) Hb2]]; [by rewrite <- E|].
    right. destruct (Hb23 Hb2) as [E' Hb3]. rewrite E', E. split; [by eexists|done].
Qed.

Lemma attempt_await_scan x order prep (k : jsval → Task) s :
  tasks s = [] → (x = AnOrder order ∨ x = APrep prep) → (∀ r, scan_of x (k r)) →
  scan_step x s (state_of ((let* r := attemptToProcess order prep in await (k r)) s)).
Proof.
  intros Hts Hx Hk. unfold bind.
  destruct (attempt_involving x order prep s Hx) as [Hbusy Hgrow].
  assert (Htasks : tasks (state_of (attemptToProcess order prep s)) = []).
  { rewrite attemptToProcess_eq.
    destruct (heap s !! order); [|done]. destruct (lookup_prep prep s); [|done].
    by destruct (eligible _ _). }
  destruct (attemptToProcess order prep s) as [r s1|e s1]; cbn [state_of] in *.
  - split; [|split].
    + right. exists (k r). cbn. by rewrite Htasks.
    + intros Hb. rewrite (Hbusy Hb). split; [done|]. by apply busy_with_tasks.
    + destruct Hgrow as [?|[? ?]]; [by left|right]. split; [done|].
      by apply busy_with_tasks.
  - split; [|split].
    + by left.
    + intros Hb. by rewrite (Hbusy Hb).
    + done.
Qed.

Lemma pending_attempt_await order prep (k : jsval → Task) s :
  tasks s = [] →
  tasks (state_of ((let* r := attemptToProcess order prep in await (k r)) s)) = []
  ∨ ∃ r, tasks (state_of ((let* r := attemptToProcess order prep in await (k r)) s))
         = [k r].
Proof.
  intros Hts. unfold bind. rewrite attemptToProcess_eq.
  destruct (heap s !! order); [|by left]. destruct (lookup_prep prep s); [|by left].
  destruct (eligible _ _); right; eexists; cbn; by rewrite Hts.
Qed.

(** A listener called with an empty queue. *)
Lemma listener_scan x s :
  tasks s = [] → scan_step x s (state_of (listener x s)).
Proof.
  intros Hts. assert (Hrefl : scan_step x s s) by (apply scan_step_refl; by left).
  destruct x as [order|prep]; cbn [listener].
  - unfold freeOrderListener, bind at 1. rewrite deref_order_eq.
    destruct (heap s !! order) as [o|]; [|done].
    destruct (stage o =? StageTypes.DONE); [done|].
    unfold bind at 1, gets.
    destruct (seq 0 (length (default [] (allPreps s !! stage o)))) as [|i rest];
      cbn [freeOrderListener_loop]; [done|].
    by apply (attempt_await_scan (AnOrder order)); auto.
  - unfold freeStageListener, bind at 1. rewrite deref_prep_eq.
    destruct (lookup_prep prep s) as [p|]; [|done].
    unfold bind at 1, gets.
    destruct (default [] (orders s !! getStage p)) as [|order rest];
      cbn [freeStageListener_loop]; [done|].
    by apply (attempt_await_scan (APrep prep)); auto.
Qed.

(** One resumption of a scan. *)
Lemma turn_scan x s :
  only_scan x s →
  scan_step x s (drain 1 s) ∧ (pending (drain 1 s) ≤ pred (pending s))%nat.
Proof.
  intros Ho. pose proof (scan_step_refl x s Ho) as Hrefl.
  destruct Ho as [Hts|(t & Hts & Ht)]; cbn [drain]; rewrite Hts.
  { split; [done|]. unfold pending. rewrite Hts. lia. }
  set (s0 := with_tasks (λ _, []) s).
  assert (H0 : scan_step x s s0 ∧ tasks s0 = []).
  { split; [|done]. split; [by left|]. split; [|by left].
    intros Hb. split; [done|]. by apply busy_with_tasks. }
  destruct H0 as [H0 Hts0].
  assert (Hend : scan_step x s s0 ∧ (pending s0 ≤ pred (pending s))%nat).
  { split; [done|]. unfold pending. rewrite Hts0. lia. }
  destruct x as [order|prep];
    destruct t as [order' k r rest caller|prep' r rest|rest]; cbn in Ht; try done.
  - destruct caller; [done|]. subst order'. cbn [resume].
    destruct (truthy r); [done|].
    destruct rest as [|i rest]; cbn [freeOrderListener_loop]; [done|].
    split.
    + eapply scan_step_trans; [exact H0|].
      by apply (attempt_await_scan (AnOrder order)); auto.
    + unfold pending at 2. rewrite Hts. cbn [length pred].
      destruct (pending_attempt_await order (k, i)
                  (λ r, AwaitAttemptOrder order k r rest None) s0 Hts0) as [Hp|[r' Hp]];
        unfold pending; rewrite Hp; lia.
  - subst prep'. cbn [resume].
    destruct (truthy r); [done|].
    destruct rest as [|order rest]; cbn [freeStageListener_loop]; [done|].
    split.
    + eapply scan_step_trans; [exact H0|].
      by apply (attempt_await_scan (APrep prep)); auto.
    + unfold pending at 2. rewrite Hts. cbn [length pred].
      destruct (pending_attempt_await order prep
                  (λ r, AwaitAttemptStage prep r rest) s0 Hts0) as [Hp|[r' Hp]];
        unfold pending; rewrite Hp; lia.
Qed.

Lemma drain_S fuel s : drain (S fuel) s = drain fuel (drain 1 s).
Proof.
  cbn [drain]. destruct (tasks s) eqn:Hts; [|done].
  destruct fuel; cbn [drain]; by rewrite ?Hts.
Qed.

Lemma drain_add a b s : drain (a + b) s = drain b (drain a s).
Proof.
  revert s. induction a as [|a IH]; intros s; [done|].
  change (S a + b)%nat with (S (a + b)).
  by rewrite (drain_S (a + b)), (drain_S a), IH.
Qed.

Lemma drain_scan x fuel : ∀ s,
  only_scan x s →
  scan_step x s (drain fuel s) ∧ (pending (drain fuel s) ≤ pending s - fuel)%nat.
Proof.
  induction fuel as [|fuel IH]; intros s Ho.
  - split; [by apply scan_step_refl|cbn; lia].
  - rewrite drain_S. destruct (turn_scan x s Ho) as [H1 Hp1].
    destruct (IH (drain 1 s)) as [H2 Hp2]; [apply H1|].
    split; [by eapply scan_step_trans|lia].
Qed.

Lemma pending_0 x s : only_scan x s → pending s = 0%nat → tasks s = [].
Proof.
  intros [Hts|(t & Hts & Ht)] Hp; [done|]. unfold pending in Hp. rewrite Hts in Hp.
  destruct x, t; cbn in Ht; done.
Qed.

(** C8.  A listener starts at most one pairing.  The listener is called
    with nothing else suspended, and is resumed until it ends ([drain], for
    any number of resumptions): its attempts set at most one timer; once
    they have set one, resuming it further sets no other; and it ends,
    after at most as many resumptions as its loop has iterations.  This
    holds of [freeStageListener], for every worker, and of
    [freeOrderListener], for every order, from every state. *)
Theorem C8_one_pairing_per_scan (s : State) (fuel : nat) :
  tasks s = [] →
  (∀ prep,
     let s1 := state_of (freeStageListener prep s) in
     (length (timers (drain fuel s1)) ≤ S (length (timers s)))%nat
     ∧ (timers (drain fuel s1) ≠ timers s →
        ∀ more, timers (drain more (drain fuel s1)) = timers (drain fuel s1))
     ∧ tasks (drain (pending s1) s1) = [])
  ∧ (∀ order,
     let s1 := state_of (freeOrderListener order None s) in
     (length (timers (drain fuel s1)) ≤ S (length (timers s)))%nat
     ∧ (timers (drain fuel s1) ≠ timers s →
        ∀ more, timers (drain more (drain fuel s1)) = timers (drain fuel s1))
     ∧ tasks (drain (pending s1) s1) = []).
Proof.
  intros Hts.
  assert (H : ∀ x, let s1 := state_of (listener x s) in
     (length (timers (drain fuel s1)) ≤ S (length (timers s)))%nat
     ∧ (timers (drain fuel s1) ≠ timers s →
        ∀ more, timers (drain more (drain fuel s1)) = timers (drain fuel s1))
     ∧ tasks (drain (pending s1) s1) = []).
  { intros x s1. pose proof (listener_scan x s Hts) as H1. fold s1 in H1.
    destruct (drain_scan x fuel s1) as [H2 _]; [apply H1|].
    pose proof (scan_step_trans x _ _ _ H1 H2) as (Ho & _ & Hg).
    split; [|split].
    - destruct Hg as [->|[(tm & ->) _]]; [lia|]. rewrite length_app. cbn. lia.
    - intros Hne more. destruct Hg as [?|[_ Hb]]; [done|].
      destruct (drain_scan x more (drain fuel s1) Ho) as [(_ & Hb' & _) _].
      by destruct (Hb' Hb).
    - destruct (drain_scan x (pending s1) s1) as [(Ho' & _) Hp]; [apply H1|].
      apply (pending_0 x); [done|lia]. }
  split.
  - intros prep. apply (H (APrep prep)).
  - intros order. apply (H (AnOrder order)).
Qed.

(** ** Once busy, busy until the timer fires *)

Lemma busy_stable x : stable (busy x).
Proof.
  split; [|apply busy_with_tasks].
  intros order prep s Hb. rewrite attemptToProcess_eq.
  destruct (heap s !! order) as [o|] eqn:Ho; [|done].
  destruct (lookup_prep prep s) as [p|] eqn:Hp; [|done].
  destruct (eligible o p); [|done]. cbn [state_of].
  destruct x as [i|r]; destruct Hb as (y & Hy & Hyb).
  - exists (if decide (order = i) then set_o_ready false y else y). split.
    + apply heap_start_pairing. eauto.
    + by case_decide.
  - exists (if decide (prep = r) then set_p_ready false y else y). split.
    + apply lookup_prep_start_pairing. eauto.
    + by case_decide.
Qed.

Lemma stable_task_turn P s s' : stable P → P s → task_turn s s' → P s'.
Proof.
  intros HP Hs (ts1 & t & ts2 & _ & ->).
  apply (stable_resume P HP). by apply HP.
Qed.

Lemma stable_task_turns P s s' : stable P → P s → rtc task_turn s s' → P s'.
Proof.
  intros HP Hs Hr. induction Hr as [|s1 s2 s3 H12 _ IH]; [done|].
  apply IH. by apply (stable_task_turn P s1).
Qed.

(** However the job queue is run after an attempt that involved a party and
    started a pairing, a later attempt that involves the party starts
    nothing: the scans of other listeners, interleaved with the rest of the
    scan, do not free anybody. *)
Lemma no_second_pairing x order prep order' prep' s s' :
  x = AnOrder order ∨ x = APrep prep →
  x = AnOrder order' ∨ x = APrep prep' →
  timers (state_of (attemptToProcess order prep s)) ≠ timers s →
  rtc task_turn (state_of (attemptToProcess order prep s)) s' →
  state_of (attemptToProcess order' prep' s') = s'.
Proof.
  intros Hx Hx' Hne Hr.
  destruct (attempt_involving x order prep s Hx) as [_ [?|[_ Hb]]]; [done|].
  apply (attempt_involving x order' prep' s' Hx').
  by apply (stable_task_turns (busy x) _ _ (busy_stable x) Hb).
Qed.

(** The oven, freed with two orders waiting for it: the scan pairs the
    first, visits the second and ends. *)
Lemma C8_one_pairing_per_scan_witness :
  tasks (seated 3 2) = []
  ∧ length (timers (drain 5 (state_of
              (freeStageListener (StageTypes.DOUGHCHEF, 0%nat) (seated 3 2))))) = 1%nat
  ∧ ∀ order,
      (length (timers (drain 5 (state_of (freeOrderListener order None (seated 3 2)))))
       ≤ S (length (timers (seated 3 2))))%nat.
Proof.
  split; [reflexivity|]. split; [vm_compute; reflexivity|].
  intros order.
  apply (C8_one_pairing_per_scan (seated 3 2) 5 eq_refl).
Defined.

(** ** The order of the events of a completion *)

Lemma quiet_since_stable t : stable (quiet_since t).
Proof.
  split; [|done].
  intros order prep s (q & Hq & Hquiet). rewrite attemptToProcess_eq.
  destruct (heap s !! order) as [o|]; [|by exists q].
  destruct (lookup_prep prep s) as [p|]; [|by exists q].
  destruct (eligible o p); [|by exists q].
  exists (q ++ [SetReady (APrep prep) false; SetReady (AnOrder order) false;
                LogProcessing order prep (calculateProcessingTime p o)]).
  split.
  - cbn. rewrite Hq. by rewrite <- !app_assoc.
  - apply Forall_app. split; [done|]. by repeat constructor.
Qed.

Lemma trace_emit who s :
  ∃ q, trace (state_of (emit who s)) = trace s ++ Emit who :: q ∧ quiet q.
Proof.
  destruct (stable_emit_call _ (quiet_since_stable (trace s ++ [Emit who])) who s)
    as (q & Hq & Hquiet).
  { exists []. split; [by rewrite app_nil_r|constructor]. }
  exists q. split; [|done]. by rewrite Hq, <- app_assoc.
Qed.

Lemma trace_mark who b s : trace (mark who b s) = trace s ++ [SetReady who b].
Proof. by destruct who. Qed.

Lemma trace_advanced order k b1 b2 s :
  ∃ q, trace (advanced order k b1 b2 s) = trace s ++ q ++ [SetReady (AnOrder order) true]
       ∧ quiet q.
Proof.
  unfold advanced, relocated. cbn [mark with_trace trace].
  set (s1 := with_orders _ _).
  assert (H1 : ∃ q1, trace s1 = trace s ++ q1 ∧ quiet q1).
  { subst s1. cbn [with_orders trace]. unfold log_if.
    destruct (k + 1 =? StageTypes.DONE); cbn [with_trace with_heap trace].
    - eexists. split; [done|]. by repeat constructor.
    - exists []. split; [by rewrite app_nil_r|constructor]. }
  destruct H1 as (q1 & Hq1 & Hquiet1).
  unfold log_if. destruct (done_all s1); cbn [with_trace trace with_heap]; rewrite Hq1.
  - exists (q1 ++ [LogDoneAll (ordersSize s1)]). split; [by rewrite <- !app_assoc|].
    apply Forall_app. split; [done|]. by repeat constructor.
  - exists q1. split; [by rewrite <- !app_assoc|done].
Qed.

(** The events of a completion callback: the order is marked free, emits
    [FREEORDER]; then the worker is marked free, emits [FREESTAGE]; around
    them, log lines and the events of the first attempt of each listener. *)
Lemma trace_fire s tm1 tm tm2 :
  Inv s → timers s = tm1 ++ tm :: tm2 →
  ∃ q0 q1 q2,
    new_events s (fire tm1 tm tm2 s)
    = q0 ++ SetReady (AnOrder (t_order tm)) true :: Emit (AnOrder (t_order tm))
         :: q1 ++ SetReady (APrep (t_prep tm)) true :: Emit (APrep (t_prep tm)) :: q2
    ∧ quiet q0 ∧ quiet q1 ∧ quiet q2.
Proof.
  intros HI Htm.
  destruct (Inv_fire s tm1 tm tm2 _ HI Htm eq_refl)
    as (HI0 & Hl & Hno & o & p & b1 & b2 & Ho & Hp & Hor & Hst & Hr & Hid & Hk & Hk' & Hd).
  unfold fire, new_events. rewrite (timerCallback_eq _ _ _ o b1 b2) by done.
  set (s0 := with_timers _ s).
  destruct (trace_advanced (t_order tm) (stage o) b1 b2 s0) as (q0 & Hq0 & Hquiet0).
  destruct (trace_emit (AnOrder (t_order tm)) (advanced (t_order tm) (stage o) b1 b2 s0))
    as (q1 & Hq1 & Hquiet1).
  set (s2 := state_of (emit (AnOrder (t_order tm)) _)) in *.
  destruct (trace_emit (APrep (t_prep tm)) (mark (APrep (t_prep tm)) true s2))
    as (q2 & Hq2 & Hquiet2).
  exists q0, q1, q2. split; [|done].
  rewrite Hq2, trace_mark, Hq1, Hq0.
  change (trace s0) with (trace s).
  rewrite <- !app_assoc. rewrite drop_app_length. reflexivity.
Qed.

Lemma quiet_not_emit q who : quiet q → Emit who ∉ q.
Proof. intros Hq Hin. by apply (proj1 (Forall_forall _ _) Hq) in Hin. Qed.

Lemma quiet_not_free q who : quiet q → SetReady who true ∉ q.
Proof. intros Hq Hin. by apply (proj1 (Forall_forall _ _) Hq) in Hin. Qed.

(** What precedes the first occurrence precedes every occurrence. *)
Lemma first_occurrence {A} (e : A) (a r l1 l2 : list A) :
  e ∉ a → a ++ e :: r = l1 ++ e :: l2 → ∃ l, l1 = a ++ l.
Proof.
  revert l1. induction a as [|x a IH]; intros l1 Hn Heq; [by exists l1|].
  destruct l1 as [|y l1]; cbn in Heq.
  - injection Heq as <- _. destruct Hn. apply elem_of_cons. by left.
  - injection Heq as <- Heq. destruct (IH l1) as [l ->]; [|done|by exists l].
    intros ?. apply Hn. apply elem_of_cons. by right.
Qed.

(** C7, as the code has it.  When the timer of a pairing fires, in any
    state of any run: the order is marked free before it emits [FREEORDER],
    and the order and the worker are both marked free before the worker
    emits [FREESTAGE]; but [FREEORDER] is emitted, and its listener makes
    its first attempt, while the worker is still marked busy: the worker is
    marked free only afterwards. *)
Theorem C7_free_marks_and_triggers (s : State) (tm1 : list Timer) (tm : Timer)
    (tm2 : list Timer) :
  reachable s → timers s = tm1 ++ tm :: tm2 →
  let order := t_order tm in
  let prep := t_prep tm in
  let new := new_events s (fire tm1 tm tm2 s) in
  marked_free_before (AnOrder order) (AnOrder order) new
  ∧ marked_free_before (AnOrder order) (APrep prep) new
  ∧ marked_free_before (APrep prep) (APrep prep) new
  ∧ ∃ before after, new = before ++ Emit (AnOrder order) :: after
      ∧ (SetReady (APrep prep) true ∉ before)
      ∧ SetReady (APrep prep) true ∈ after
      ∧ Emit (APrep prep) ∈ after.
Proof.
  intros HI%Inv_reachable Htm order prep new.
  destruct (trace_fire s tm1 tm tm2 HI Htm) as (q0 & q1 & q2 & Hnew & Hq0 & Hq1 & Hq2).
  fold order prep new in Hnew.
  assert (Hfirst : Emit (AnOrder order) ∉ q0 ++ [SetReady (AnOrder order) true]).
  { rewrite elem_of_app, list_elem_of_singleton.
    intros [?%quiet_not_emit|?]; done. }
  assert (Hsecond : Emit (APrep prep) ∉
            q0 ++ SetReady (AnOrder order) true :: Emit (AnOrder order)
               :: q1 ++ [SetReady (APrep prep) true]).
  { rewrite elem_of_app, !elem_of_cons, elem_of_app, list_elem_of_singleton.
    intros [?%quiet_not_emit|[?|[?|[?%quiet_not_emit|?]]]]; done. }
  assert (Hnew1 : new = (q0 ++ [SetReady (AnOrder order) true])
                        ++ Emit (AnOrder order)
                        :: (q1 ++ SetReady (APrep prep) true :: Emit (APrep prep) :: q2)).
  { rewrite Hnew. by rewrite <- app_assoc. }
  assert (Hnew2 : new = (q0 ++ SetReady (AnOrder order) true :: Emit (AnOrder order)
                            :: q1 ++ [SetReady (APrep prep) true])
                        ++ Emit (APrep prep) :: q2).
  { rewrite Hnew. rewrite <- !app_assoc. cbn. by rewrite <- !app_assoc. }
  split; [|split; [|split]].
  - intros l1 l2 Heq. rewrite Hnew1 in Heq.
    destruct (first_occurrence _ _ _ _ _ Hfirst Heq) as [l ->].
    rewrite !elem_of_app, list_elem_of_singleton. auto.
  - intros l1 l2 Heq. rewrite Hnew2 in Heq.
    destruct (first_occurrence _ _ _ _ _ Hsecond Heq) as [l ->].
    rewrite !elem_of_app, !elem_of_cons. auto.
  - intros l1 l2 Heq. rewrite Hnew2 in Heq.
    destruct (first_occurrence _ _ _ _ _ Hsecond Heq) as [l ->].
    rewrite !elem_of_app, !elem_of_cons, elem_of_app, list_elem_of_singleton. auto 10.
  - eexists _, _. split; [exact Hnew1|]. split; [|split].
    + rewrite elem_of_app, list_elem_of_singleton.
      intros [?%quiet_not_free|?]; done.
    + rewrite elem_of_app, !elem_of_cons. auto.
    + rewrite elem_of_app, !elem_of_cons. auto.
Qed.

(** One order with four toppings, paired with the first dough chef: the
    events of the completion of that pairing. *)
Lemma new_events_first_completion :
  timers (drain 20 (kitchen 4 1)) = [mkTimer 1 (StageTypes.DOUGHCHEF, 0%nat) 7000]
  ∧ new_events (drain 20 (kitchen 4 1))
      (fire [] (mkTimer 1 (StageTypes.DOUGHCHEF, 0%nat) 7000) [] (drain 20 (kitchen 4 1)))
    = [SetReady (AnOrder 1) true; Emit (AnOrder 1);
       SetReady (APrep (StageTypes.TOPPINGCHEF, 0%nat)) false;
       SetReady (AnOrder 1) false;
       LogProcessing 1 (StageTypes.TOPPINGCHEF, 0%nat) 8000;
       SetReady (APrep (StageTypes.DOUGHCHEF, 0%nat)) true;
       Emit (APrep (StageTypes.DOUGHCHEF, 0%nat))].
Proof. split; vm_compute; reflexivity. Qed.

Lemma C7_free_marks_and_triggers_witness :
  reachable (drain 20 (kitchen 4 1))
  ∧ timers (drain 20 (kitchen 4 1))
    = [] ++ mkTimer 1 (StageTypes.DOUGHCHEF, 0%nat) 7000 :: []
  ∧ marked_free_before (AnOrder 1) (APrep (StageTypes.DOUGHCHEF, 0%nat))
      (new_events (drain 20 (kitchen 4 1))
         (fire [] (mkTimer 1 (StageTypes.DOUGHCHEF, 0%nat) 7000) []
            (drain 20 (kitchen 4 1)))).
Proof.
  assert (H : reachable (drain 20 (kitchen 4 1))).
  { apply reachable_kitchen. by compute. }
  split; [exact H|]. split; [apply new_events_first_completion|].
  apply (C7_free_marks_and_triggers _ [] _ [] H
           (proj1 new_events_first_completion)).
Defined.

(** C7, as the claim has it, fails.  At the completion of the first
    pairing of a run with one order, [FREEORDER] is emitted, and the order
    is paired with a topping chef by its listener, before the dough chef is
    marked free. *)
Lemma C7_counterexample :
  ¬ both_free_before_triggers 1 (StageTypes.DOUGHCHEF, 0%nat)
      (new_events (drain 20 (kitchen 4 1))
         (fire [] (mkTimer 1 (StageTypes.DOUGHCHEF, 0%nat) 7000) []
            (drain 20 (kitchen 4 1)))).
Proof.
  rewrite (proj2 new_events_first_completion). intros (_ & H & _).
  specialize (H [SetReady (AnOrder 1) true] _ eq_refl).
  apply list_elem_of_singleton in H. discriminate H.
Qed.

(** ** A proof rule for the turns of the event loop *)

Lemma step_rule (P : State → Prop) :
  stable P →
  (∀ who s, P s → P (with_trace (λ t, t ++ [Emit who]) s)) →
  (∀ r s, P s → P (mark (APrep r) true s)) →
  (∀ s tm1 tm tm2 o p b1 b2,
     Inv s → P s → timers s = tm1 ++ tm :: tm2 →
     heap s !! t_order tm = Some o → lookup_prep (t_prep tm) s = Some p →
     stage o = getStage p → 1 ≤ stage o ≤ 4 →
     t_order tm ∉ map t_order (tm1 ++ tm2) →
     orders s !! stage o = Some b1 → orders s !! (stage o + 1) = Some b2 →
     P (advanced (t_order tm) (stage o) b1 b2 (with_timers (λ _, tm1 ++ tm2) s))) →
  ∀ s s', Inv s → P s → step s s' → P s'.
Proof.
  intros HP Hemit Hmark Hadv s s' HI Hs Hstep.
  destruct Hstep as [s ts1 t ts2 Hts|s tm1 tm tm2 Hts Htm].
  - apply (stable_resume P HP). by apply HP.
  - destruct (Inv_fire s tm1 tm tm2 _ HI Htm eq_refl)
      as (HI0 & Hl & Hno & o & p & b1 & b2 & Ho & Hp & Hor & Hst & Hr & Hid & Hk & Hk' & Hd).
    rewrite (timerCallback_eq _ _ _ o b1 b2) by done.
    apply (stable_emit_call P HP), Hemit, Hmark.
    apply (stable_emit_call P HP), Hemit.
    by apply (Hadv s tm1 tm tm2 o p b1 b2).
Qed.

Lemma steps_rule (P : State → Prop) :
  (∀ s s', Inv s → P s → step s s' → P s') →
  ∀ s s', Inv s → P s → rtc step s s' → P s'.
Proof.
  intros Hstep s s' HI Hs Hr. induction Hr as [|s1 s2 s3 H12 _ IH]; [done|].
  apply IH; [by apply (Inv_step s1)|by apply (Hstep s1)].
Qed.

(** ** The completion signal: at most once, and only when all is done *)

Lemma done_all_count_app s l :
  done_all_count (with_trace (λ t, t ++ l) s)
  = (done_all_count s + length (List.filter is_done_all l))%nat.
Proof. unfold done_all_count. cbn. by rewrite List.filter_app, length_app. Qed.

Lemma done_all_count_start_pairing order prep time s :
  done_all_count (start_pairing order prep time s) = done_all_count s.
Proof.
  unfold done_all_count, start_pairing. cbn [with_timers with_trace trace].
  rewrite !trace_mark, <- !app_assoc, List.filter_app, length_app. cbn. lia.
Qed.

Lemma done_all_count_mark who b s :
  done_all_count (mark who b s) = done_all_count s.
Proof.
  unfold done_all_count. rewrite trace_mark, List.filter_app, length_app. cbn. lia.
Qed.

Lemma all_done_start_pairing order prep time s :
  all_done s → all_done (start_pairing order prep time s).
Proof.
  intros H i o' (o & Ho & ->)%heap_start_pairing.
  rewrite <- (H i o Ho). by case_decide.
Qed.

Lemma signal_safe_stable : stable signal_safe.
Proof.
  split; [|done].
  intros order prep s [Hle Hall]. rewrite attemptToProcess_eq.
  destruct (heap s !! order) as [o|]; [|done].
  destruct (lookup_prep prep s) as [p|]; [|done].
  destruct (eligible o p); [|done]. cbn [state_of].
  split; rewrite done_all_count_start_pairing; [done|].
  intros ?. by apply all_done_start_pairing, Hall.
Qed.

(** With the invariant, a Done bucket as large as [ordersSize] holds every
    order. *)
Lemma done_all_all_done s : Inv s → done_all s = true → all_done s.
Proof.
  intros HI Hd i o Ho.
  destruct (inv_buckets s HI StageTypes.DONE ltac:(by compute)) as [b Hb].
  destruct (inv_registry s HI _ _ Hb) as [Hnd Hin].
  unfold done_all in Hd. rewrite Hb in Hd. cbn in Hd. apply Nat.eqb_eq in Hd.
  rewrite (inv_size s HI) in Hd.
  assert (Hsub : b ⊆+ (map_to_list (heap s)).*1).
  { apply NoDup_submseteq; [done|]. intros j (oj & Hj & _)%Hin.
    apply list_elem_of_fmap. exists (j, oj). split; [done|].
    by apply elem_of_map_to_list. }
  assert (Hperm : b ≡ₚ (map_to_list (heap s)).*1).
  { apply submseteq_length_Permutation; [done|].
    rewrite length_fmap, length_map_to_list. lia. }
  assert (Hi : i ∈ b).
  { rewrite Hperm. apply list_elem_of_fmap. exists (i, o). split; [done|].
    by apply elem_of_map_to_list. }
  apply Hin in Hi as (o' & Ho' & Hs'). congruence.
Qed.

Lemma done_all_count_advanced order k b1 b2 s :
  done_all_count (advanced order k b1 b2 s)
  = (done_all_count s + if done_all (relocated order k b1 b2 s) then 1 else 0)%nat.
Proof.
  unfold advanced. cbn zeta. rewrite done_all_count_mark.
  set (s1 := relocated order k b1 b2 s).
  assert (H1 : done_all_count s1 = done_all_count s).
  { subst s1. unfold relocated, done_all_count. cbn [with_orders trace].
    unfold log_if. destruct (k + 1 =? StageTypes.DONE); cbn [with_trace with_heap trace].
    - rewrite List.filter_app, length_app. cbn. lia.
    - done. }
  unfold log_if. destruct (done_all s1).
  - rewrite done_all_count_app, H1. reflexivity.
  - rewrite H1. lia.
Qed.

Lemma done_all_advanced order k b1 b2 s :
  done_all (advanced order k b1 b2 s) = done_all (relocated order k b1 b2 s).
Proof.
  unfold done_all. rewrite orders_advanced, ordersSize_advanced.
  unfold relocated. cbn [with_orders orders ordersSize].
  by rewrite orders_log_if, ordersSize_log_if.
Qed.

Lemma signal_safe_step s s' : Inv s → signal_safe s → step s s' → signal_safe s'.
Proof.
  apply step_rule.
  - apply signal_safe_stable.
  - intros who s0 [Hle Hall]. split.
    + rewrite done_all_count_app. cbn. lia.
    + rewrite done_all_count_app. cbn. rewrite Nat.add_0_r. exact Hall.
  - intros r s0 [Hle Hall]. split; rewrite done_all_count_mark; [done|].
    intros Hc i o Ho. by apply (Hall Hc i o).
  - intros s0 tm1 tm tm2 o p b1 b2 HI [Hle Hall] Htm Ho Hp Hst Hr Hno Hk Hk'.
    assert (Hzero : done_all_count s0 = 0%nat).
    { destruct (decide (done_all_count s0 = 1%nat)) as [H1|]; [|lia].
      pose proof (Hall H1 _ _ Ho) as Hdone. unfold StageTypes.DONE in Hdone. lia. }
    set (s1 := with_timers (λ _, tm1 ++ tm2) s0).
    assert (HI1 : Inv (advanced (t_order tm) (stage o) b1 b2 s1)).
    { destruct (Inv_fire s0 tm1 tm tm2 _ HI Htm eq_refl) as (HI0 & _).
      by apply Inv_advanced. }
    unfold signal_safe. rewrite done_all_count_advanced.
    change (done_all_count s1) with (done_all_count s0). rewrite Hzero.
    destruct (done_all (relocated _ _ _ _ s1)) eqn:Hd; split; try (cbn; lia).
    intros _. apply (done_all_all_done _ HI1). by rewrite done_all_advanced.
Qed.

Lemma signal_safe_init rnd orderCount : signal_safe (init rnd orderCount).
Proof.
  destruct (main_eq rnd orderCount) as (s1 & _ & _ & _ & _ & Htr & -> & _).
  unfold initOrderProcessing, bind, gets.
  apply (stable_initOrderProcessing_loop _ signal_safe_stable).
  unfold signal_safe, done_all_count. rewrite Htr. cbn. split; [lia|done].
Qed.

(** The completion signal is logged at most once in a run, and when it has
    been logged every order is at the Done stage. *)
Lemma signal_safe_reachable s : reachable s → signal_safe s.
Proof.
  intros (rnd & n & _ & Hs).
  apply (steps_rule signal_safe signal_safe_step (init rnd n));
    [apply Inv_init|apply signal_safe_init|done].
Qed.

(** ** An order without topping stays at the topping stage *)

Lemma plain_orders_held_stable : stable plain_orders_held.
Proof.
  split; [|done].
  intros order prep s HK. rewrite attemptToProcess_eq.
  destruct (heap s !! order) as [o|] eqn:Ho; [|done].
  destruct (lookup_prep prep s) as [p|] eqn:Hp; [|done].
  destruct (eligible o p) eqn:He; [|done]. cbn [state_of].
  intros i o' (o1 & Ho1 & ->)%heap_start_pairing Ht.
  assert (Ht1 : toppingsCount o1 = 0) by (by case_decide).
  assert (Hs1 : stage (if decide (order = i) then set_o_ready false o1 else o1)
                = stage o1) by (by case_decide).
  rewrite Hs1. destruct (HK i o1 Ho1 Ht1) as [?|[Hst Hn]]; [by left|right].
  split; [done|]. cbn. rewrite map_app, elem_of_app. cbn.
  rewrite list_elem_of_singleton. intros [?| ->]; [done|].
  assert (o1 = o) by congruence. subst o1.
  unfold eligible in He. apply andb_prop in He as [He Hz].
  apply andb_prop in He as [_ Hsp]. apply Z.eqb_eq in Hsp.
  assert (Hzero : calculateProcessingTime p o = 0).
  { apply calculateProcessingTime_zero. split; [|done].
    apply getStage_topping. congruence. }
  rewrite Hzero in Hz. done.
Qed.

Lemma plain_orders_held_step s s' :
  Inv s → plain_orders_held s → step s s' → plain_orders_held s'.
Proof.
  apply step_rule.
  - apply plain_orders_held_stable.
  - done.
  - done.
  - intros s0 tm1 tm tm2 o p b1 b2 HI HK Htm Ho Hp Hst Hr Hno Hk Hk'.
    intros i o' (o1 & Ho1 & ->)%heap_advanced_lookup Ht.
    rewrite timers_advanced. cbn [with_timers timers heap] in *.
    assert (Hsub : ∀ j, j ∉ map t_order (timers s0) → j ∉ map t_order (tm1 ++ tm2)).
    { intros j Hj Hin. apply Hj. rewrite Htm. rewrite map_app in *. cbn.
      rewrite elem_of_app in *. rewrite elem_of_cons. tauto. }
    case_decide as Hi.
    + subst i. assert (o1 = o) by congruence. subst o1. cbn in Ht.
      destruct (HK _ _ Ho Ht) as [Hs1|[_ Hn]].
      * right. cbn. rewrite Hs1. done.
      * destruct Hn. rewrite Htm, map_app. cbn. rewrite elem_of_app, elem_of_cons. auto.
    + destruct (HK _ _ Ho1 Ht) as [?|[? ?]]; [by left|right]. auto.
Qed.

Lemma plain_orders_held_init rnd orderCount : plain_orders_held (init rnd orderCount).
Proof.
  destruct (main_eq rnd orderCount) as (s1 & _ & _ & _ & _ & _ & -> & Hnew & _).
  unfold initOrderProcessing, bind, gets.
  apply (stable_initOrderProcessing_loop _ plain_orders_held_stable).
  intros i o ->%Hnew _. by left.
Qed.

Lemma plain_order_stable i : stable (plain_order i).
Proof.
  split; [|done].
  intros order prep s (o & Ho & Ht). rewrite attemptToProcess_eq.
  destruct (heap s !! order) as [o0|]; [|by exists o].
  destruct (lookup_prep prep s) as [p|]; [|by exists o].
  destruct (eligible o0 p); [|by exists o]. cbn [state_of].
  eexists. split; [apply heap_start_pairing; eauto|]. by case_decide.
Qed.

Lemma plain_order_step i s s' :
  Inv s → plain_order i s → step s s' → plain_order i s'.
Proof.
  apply step_rule.
  - apply plain_order_stable.
  - done.
  - done.
  - intros s0 tm1 tm tm2 o p b1 b2 _ (oi & Hoi & Ht) _ _ _ _ _ _ _ _.
    eexists. split; [apply heap_advanced_lookup; eauto|]. by case_decide.
Qed.

(** In a run where some order has no topping, that order never gets past
    the topping stage and the completion signal is never logged. *)
Lemma plain_order_blocks_signal rnd orderCount i s :
  (1 ≤ i ≤ orderCount)%nat → rnd i = 0 → rtc step (init rnd orderCount) s →
  done_all_count s = 0%nat
  ∧ ∃ o, heap s !! i = Some o ∧ stage o ≤ StageTypes.TOPPINGCHEF.
Proof.
  intros Hi Hrnd Hs.
  assert (HK : plain_orders_held s).
  { apply (steps_rule _ plain_orders_held_step (init rnd orderCount));
      [apply Inv_init|apply plain_orders_held_init|done]. }
  assert (HP : plain_order i s).
  { apply (steps_rule _ (plain_order_step i) (init rnd orderCount));
      [apply Inv_init| |done].
    destruct (main_eq rnd orderCount) as (s1 & _ & _ & _ & _ & _ & -> & _ & Hnew).
    unfold initOrderProcessing, bind, gets.
    apply (stable_initOrderProcessing_loop _ (plain_order_stable i)).
    eexists. split; [by apply Hnew|done]. }
  assert (HS : signal_safe s).
  { apply (steps_rule _ signal_safe_step (init rnd orderCount));
      [apply Inv_init|apply signal_safe_init|done]. }
  destruct HP as (o & Ho & Ht).
  assert (Hst : stage o ≤ StageTypes.TOPPINGCHEF).
  { destruct (HK i o Ho Ht) as [->|[-> _]]; by compute. }
  split; [|eauto].
  destruct HS as [Hle Hall].
  destruct (decide (done_all_count s = 1%nat)) as [H1|]; [|lia].
  pose proof (Hall H1 i o Ho) as Hd. rewrite Hd in Hst. by compute in Hst.
Qed.

Lemma run_steps fuel : ∀ s, rtc step s (run fuel s).
Proof.
  induction fuel as [|fuel IH]; intros s; cbn [run]; [apply rtc_refl|].
  destruct (tasks s) as [|t ts] eqn:Hts.
  - destruct (timers s) as [|tm tms] eqn:Htm; [apply rtc_refl|].
    eapply rtc_l; [|apply IH]. by apply (step_timer s [] tm tms).
  - eapply rtc_l; [|apply IH]. by apply (step_task s [] t ts).
Qed.

Lemma kitchen_eq c n : kitchen c n = init (λ _, c) n.
Proof. reflexivity. Qed.

(** C4.  One order, without topping.  In no state of the run has the
    completion signal been logged: the order is paired with a dough chef,
    moves to the topping stage and stays there, since every attempt to pair
    it with a topping chef computes a duration of zero and returns
    [false]. *)
Theorem C4_signal_never_logged (s : State) :
  rtc step (kitchen 0 1) s →
  done_all_count s = 0%nat
  ∧ ∃ o, heap s !! 1%nat = Some o ∧ stage o ≤ StageTypes.TOPPINGCHEF.
Proof.
  rewrite kitchen_eq. intros Hs.
  exact (plain_order_blocks_signal (λ _, 0) 1 1 s (conj (le_n 1) (le_n 1)) eq_refl Hs).
Qed.

(** The run of that kitchen to its end: nothing is suspended, no timer is
    pending, the order is at the topping stage, marked free, and the signal
    has not been logged. *)
Lemma C4_signal_never_logged_witness :
  rtc step (kitchen 0 1) (run 50 (kitchen 0 1))
  ∧ tasks (run 50 (kitchen 0 1)) = []
  ∧ timers (run 50 (kitchen 0 1)) = []
  ∧ heap (run 50 (kitchen 0 1)) !! 1%nat = Some (mkOrder 1 0 StageTypes.TOPPINGCHEF true)
  ∧ done_all_count (run 50 (kitchen 0 1)) = 0%nat.
Proof.
  split; [apply run_steps|]. do 3 (split; [vm_compute; reflexivity|]).
  apply (C4_signal_never_logged _ (run_steps 50 (kitchen 0 1))).
Defined.

(** With four toppings the same kitchen logs the signal, once. *)
Example signal_logged_once :
  done_all_count (run 50 (kitchen 4 1)) = 1%nat
  ∧ tasks (run 50 (kitchen 4 1)) = [] ∧ timers (run 50 (kitchen 4 1)) = [].
Proof. repeat split; vm_compute; reflexivity. Qed.

(** * Further properties of the scheduler *)

(** ** The successor function *)

(** [getNextStage] succeeds exactly on the numbers of the four working
    stages, and then returns the next number; every other value, the Done
    stage, a string, [null] and [undefined] among them, throws.  So no
    stage is skipped or repeated, and the first stage is never returned. *)
Theorem getNextStage_successor (v : jsval) (k' : Z) :
  getNextStage v = Ok k' ↔ ∃ k, v = JNum k ∧ 1 ≤ k ≤ 4 ∧ k' = k + 1.
Proof.
  split.
  - destruct v as [| |b|k|str]; try discriminate.
    rewrite getNextStage_num. case_decide; [|discriminate].
    intros [= <-]. eauto.
  - intros (k & -> & Hk & ->). rewrite getNextStage_num. by rewrite decide_True.
Qed.

(** ** What an attempt does *)



(** The duration of a pairing is zero exactly when a topping chef is given
    an order without topping; [attemptToProcess] then returns [false] and
    leaves the state as it is: no flag is written, no timer is set. *)
Theorem zero_duration_not_started (order : nat) (prep : PrepRef) (o : Order)
    (p : Prep) (s : State) :
  heap s !! order = Some o → lookup_prep prep s = Some p →
  (calculateProcessingTime p o = 0 ↔ p_class p = ToppingChef ∧ toppingsCount o = 0)
  ∧ (calculateProcessingTime p o = 0 →
     attemptToProcess order prep s = Ret (JBool false) s).
Proof.
  intros Ho Hp. split; [apply calculateProcessingTime_zero|].
  intros Hz. rewrite attemptToProcess_eq, Ho, Hp.
  unfold eligible. rewrite Hz. by rewrite andb_false_r.
Qed.

Lemma zero_duration_not_started_witness :
  heap (run 50 (kitchen 0 1)) !! 1%nat = Some (mkOrder 1 0 StageTypes.TOPPINGCHEF true)
  ∧ attemptToProcess 1 (StageTypes.TOPPINGCHEF, 0%nat) (run 50 (kitchen 0 1))
    = Ret (JBool false) (run 50 (kitchen 0 1)).
Proof.
  assert (Ho : heap (run 50 (kitchen 0 1)) !! 1%nat
               = Some (mkOrder 1 0 StageTypes.TOPPINGCHEF true))
    by (vm_compute; reflexivity).
  assert (Hp : lookup_prep (StageTypes.TOPPINGCHEF, 0%nat) (run 50 (kitchen 0 1))
               = Some (mkPrep ToppingChef 1 true))
    by (vm_compute; reflexivity).
  split; [exact Ho|].
  apply (zero_duration_not_started _ _ _ _ _ Ho Hp). reflexivity.
Defined.

(** ** The completion signal *)

(** With the invariant, when every order is at the Done stage the Done
    bucket is as large as [ordersSize]. *)
Lemma all_done_done_all s : Inv s → all_done s → done_all s = true.
Proof.
  intros HI Hall.
  destruct (inv_buckets s HI StageTypes.DONE ltac:(by compute)) as [b Hb].
  destruct (inv_registry s HI _ _ Hb) as [Hnd Hin].
  unfold done_all. rewrite Hb. cbn. apply Nat.eqb_eq.
  rewrite (inv_size s HI), <- length_map_to_list, <- (length_fmap fst).
  apply Permutation_length, NoDup_Permutation;
    [done|apply NoDup_fst_map_to_list|].
  intros i. rewrite Hin. split.
  - intros (o & Ho & _). apply list_elem_of_fmap. exists (i, o). split; [done|].
    by apply elem_of_map_to_list.
  - intros ([j o] & -> & Ho%elem_of_map_to_list)%list_elem_of_fmap.
    exists o. split; [done|]. by apply (Hall j).
Qed.

Lemma all_done_heap_alter_ready (b : bool) (i : nat) (h : gmap nat Order) :
  (∀ j o, alter (set_o_ready b) i h !! j = Some o → stage o = StageTypes.DONE) →
  ∀ j o, h !! j = Some o → stage o = StageTypes.DONE.
Proof.
  intros H j o Ho.
  destruct (decide (i = j)) as [->|Hne].
  - apply (H j (set_o_ready b o)). by rewrite lookup_alter_eq, Ho.
  - apply (H j o). by rewrite lookup_alter_ne.
Qed.

Lemma signal_complete_stable : stable signal_complete.
Proof.
  split; [|done].
  intros order prep s HC. rewrite attemptToProcess_eq.
  destruct (heap s !! order) as [o|]; [|done].
  destruct (lookup_prep prep s) as [p|]; [|done].
  destruct (eligible o p); [|done]. cbn [state_of].
  intros Hall Hsz. rewrite done_all_count_start_pairing.
  cbn in Hsz. rewrite size_alter in Hsz.
  exact (HC (all_done_heap_alter_ready false order (heap s) Hall) Hsz).
Qed.

Lemma lookup_size_pos {A} (m : gmap nat A) i x : m !! i = Some x → (0 < size m)%nat.
Proof.
  intros Hx. destruct (decide (size m = 0%nat)) as [Hz|]; [|lia].
  apply map_size_empty_inv in Hz. subst m. by rewrite lookup_empty in Hx.
Qed.

Lemma signal_inv_step : ∀ s s', Inv s → signal_inv s → step s s' → signal_inv s'.
Proof.
  apply (step_rule signal_inv).
  - split; [|done].
    intros order prep s (HS & HC & HN). split; [|split].
    + by apply signal_safe_stable.
    + by apply signal_complete_stable.
    + rewrite attemptToProcess_eq.
      destruct (heap s !! order) as [o|]; [|done].
      destruct (lookup_prep prep s) as [p|]; [|done].
      destruct (eligible o p); [|done]. cbn [state_of].
      intros H1. rewrite done_all_count_start_pairing in H1.
      cbn. rewrite size_alter. by apply HN.
  - intros who s ([Hle Hall] & HC & HN).
    unfold signal_inv, signal_safe, signal_complete, signal_has_order.
    rewrite done_all_count_app. cbn. rewrite Nat.add_0_r. done.
  - intros r s ([Hle Hall] & HC & HN).
    unfold signal_inv, signal_safe, signal_complete, signal_has_order.
    rewrite done_all_count_mark. done.
  - intros s tm1 tm tm2 o p b1 b2 HI ([Hle Hall] & HC & HN) Htm Ho Hp Hst Hr Hno Hk Hk'.
    assert (Hzero : done_all_count s = 0%nat).
    { destruct (decide (done_all_count s = 1%nat)) as [H1|]; [|lia].
      pose proof (Hall H1 _ _ Ho) as Hdone. unfold StageTypes.DONE in Hdone. lia. }
    set (s1 := with_timers (λ _, tm1 ++ tm2) s).
    assert (HI1 : Inv (advanced (t_order tm) (stage o) b1 b2 s1)).
    { destruct (Inv_fire s tm1 tm tm2 _ HI Htm eq_refl) as (HI0 & _).
      by apply Inv_advanced. }
    assert (Hpos : (0 < size (heap (advanced (t_order tm) (stage o) b1 b2 s1)))%nat).
    { rewrite heap_advanced, !size_alter. by apply (lookup_size_pos _ _ _ Ho). }
    unfold signal_inv, signal_safe, signal_complete, signal_has_order.
    rewrite done_all_count_advanced.
    change (done_all_count s1) with (done_all_count s). rewrite Hzero.
    destruct (done_all (relocated _ _ _ _ s1)) eqn:Hd.
    + split; [split; [cbn; lia|]|done].
      intros _. apply (done_all_all_done _ HI1). by rewrite done_all_advanced.
    + split; [split; cbn; [lia|lia]|]. split; [|cbn; lia].
      intros Ha _. pose proof (all_done_done_all _ HI1 Ha) as Hd'.
      rewrite done_all_advanced in Hd'. congruence.
Qed.

Lemma signal_inv_init rnd orderCount : signal_inv (init rnd orderCount).
Proof.
  split; [apply signal_safe_init|].
  destruct (main_eq rnd orderCount) as (s1 & _ & HI1 & _ & _ & Htr & -> & Hnew & _).
  unfold initOrderProcessing, bind, gets. split.
  - apply (stable_initOrderProcessing_loop _ signal_complete_stable).
    intros Hall Hsz. exfalso.
    destruct (map_to_list (heap s1)) as [|[i o] l] eqn:Hl.
    { rewrite <- length_map_to_list, Hl in Hsz. cbn in Hsz. lia. }
    assert (Ho : heap s1 !! i = Some o).
    { apply elem_of_map_to_list. rewrite Hl. apply elem_of_cons. by left. }
    pose proof (Hall i o Ho) as Hd. rewrite (Hnew i o Ho) in Hd. discriminate Hd.
  - assert (Hst : stable signal_has_order).
    { split; [|done]. intros order prep s HN. rewrite attemptToProcess_eq.
      destruct (heap s !! order) as [o|]; [|done].
      destruct (lookup_prep prep s) as [p|]; [|done].
      destruct (eligible o p); [|done]. cbn [state_of].
      intros H1. rewrite done_all_count_start_pairing in H1.
      cbn. rewrite size_alter. by apply HN. }
    apply (stable_initOrderProcessing_loop _ Hst).
    unfold signal_has_order, done_all_count. rewrite Htr. cbn. lia.
Qed.

(** In every state of every run: "Done processing orders" has been logged
    at most once; it has been logged exactly when there is an order and
    every order is at the Done stage; and then no timer is pending. *)
Theorem completion_signal_characterised (s : State) :
  reachable s →
  (done_all_count s ≤ 1)%nat
  ∧ (done_all_count s = 1%nat ↔ all_done s ∧ (0 < ordersSize s)%nat)
  ∧ (done_all_count s = 1%nat → timers s = []).
Proof.
  intros Hr. pose proof (Inv_reachable s Hr) as HI.
  destruct Hr as (rnd & n & _ & Hs).
  assert (H : signal_inv s).
  { apply (steps_rule _ signal_inv_step (init rnd n));
      [apply Inv_init|apply signal_inv_init|done]. }
  destruct H as ([Hle Hall] & HC & HN).
  assert (Htimers : all_done s → timers s = []).
  { intros Ha. destruct (timers s) as [|tm l] eqn:Htm; [done|].
    destruct (inv_timers s HI tm) as (o & p & Ho & _ & _ & _ & Hst & _).
    { rewrite Htm. apply elem_of_cons. by left. }
    pose proof (Ha _ _ Ho) as Hd. pose proof (getStage_range p).
    unfold StageTypes.DONE in Hd. lia. }
  split; [done|]. split; [|by auto]. rewrite (inv_size s HI). split.
  - intros H1. split; [by apply Hall|by apply HN].
  - intros [Ha Hsz]. by apply HC.
Qed.

(** One order with four toppings, run to the end. *)
Lemma completion_signal_characterised_witness :
  reachable (run 50 (kitchen 4 1))
  ∧ done_all_count (run 50 (kitchen 4 1)) = 1%nat
  ∧ timers (run 50 (kitchen 4 1)) = [].
Proof.
  assert (H : reachable (run 50 (kitchen 4 1))).
  { exists (λ _, 4), 1%nat. split; [by intros i; compute|apply run_steps]. }
  split; [exact H|].
  assert (H1 : done_all_count (run 50 (kitchen 4 1)) = 1%nat)
    by (vm_compute; reflexivity).
  split; [exact H1|].
  apply (completion_signal_characterised _ H). exact H1.
Defined.

(** ** Orders without topping *)

(** In a run in which some order has no topping, that order is, in every
    state, at the dough stage or at the topping stage and there in no
    pairing; and the completion signal is never logged. *)
Theorem order_without_topping_is_stuck (rnd : nat → Z) (orderCount i : nat)
    (s : State) :
  (1 ≤ i ≤ orderCount)%nat → rnd i = 0 → rtc step (init rnd orderCount) s →
  (∃ o, heap s !! i = Some o ∧ toppingsCount o = 0
        ∧ (stage o = StageTypes.DOUGHCHEF
           ∨ stage o = StageTypes.TOPPINGCHEF ∧ i ∉ map t_order (timers s)))
  ∧ done_all_count s = 0%nat.
Proof.
  intros Hi Hrnd Hs.
  destruct (plain_order_blocks_signal rnd orderCount i s Hi Hrnd Hs) as [Hc _].
  split; [|done].
  assert (HK : plain_orders_held s).
  { apply (steps_rule _ plain_orders_held_step (init rnd orderCount));
      [apply Inv_init|apply plain_orders_held_init|done]. }
  assert (HP : plain_order i s).
  { apply (steps_rule _ (plain_order_step i) (init rnd orderCount));
      [apply Inv_init| |done].
    destruct (main_eq rnd orderCount) as (s1 & _ & _ & _ & _ & _ & -> & _ & Hnew).
    unfold initOrderProcessing, bind, gets.
    apply (stable_initOrderProcessing_loop _ (plain_order_stable i)).
    eexists. split; [by apply Hnew|done]. }
  destruct HP as (o & Ho & Ht). exists o. do 2 (split; [done|]). by apply HK.
Qed.

(** Three orders, the second without topping: at the end of the run the
    first and the third are done, the second is free at the topping
    stage. *)
Lemma order_without_topping_is_stuck_witness :
  rtc step (init (plain_at 2 3) 3) (run 200 (init (plain_at 2 3) 3))
  ∧ tasks (run 200 (init (plain_at 2 3) 3)) = []
  ∧ timers (run 200 (init (plain_at 2 3) 3)) = []
  ∧ stage <$> heap (run 200 (init (plain_at 2 3) 3)) !! 1%nat = Some StageTypes.DONE
  ∧ stage <$> heap (run 200 (init (plain_at 2 3) 3)) !! 3%nat = Some StageTypes.DONE
  ∧ heap (run 200 (init (plain_at 2 3) 3)) !! 2%nat
    = Some (mkOrder 2 0 StageTypes.TOPPINGCHEF true)
  ∧ done_all_count (run 200 (init (plain_at 2 3) 3)) = 0%nat.
Proof.
  split; [apply run_steps|]. do 5 (split; [vm_compute; reflexivity|]).
  apply (order_without_topping_is_stuck (plain_at 2 3) 3 2 _
           (conj (le_S _ _ (le_n 1)) (le_S _ _ (le_n 2))) eq_refl
           (run_steps 200 (init (plain_at 2 3) 3))).
Defined.

(** ** Orders only move forward *)

Lemma order_at_least_stable i k id c : stable (order_at_least i k id c).
Proof.
  split; [|done].
  intros order prep s (o & Ho & Hk & Hid & Hc). rewrite attemptToProcess_eq.
  destruct (heap s !! order) as [o0|]; [|by exists o].
  destruct (lookup_prep prep s) as [p|]; [|by exists o].
  destruct (eligible o0 p); [|by exists o]. cbn [state_of].
  eexists. split; [apply heap_start_pairing; eauto|]. by case_decide.
Qed.

Lemma order_at_least_step i k id c :
  ∀ s s', Inv s → order_at_least i k id c s → step s s' → order_at_least i k id c s'.
Proof.
  apply step_rule.
  - apply order_at_least_stable.
  - done.
  - done.
  - intros s tm1 tm tm2 o p b1 b2 _ (oi & Hoi & Hk & Hid & Hc) _ Ho _ _ _ _ _ _.
    eexists. split; [apply heap_advanced_lookup; eauto|].
    case_decide; [|done]. subst i. assert (oi = o) by congruence. subst oi.
    cbn. repeat split; (done || lia).
Qed.

Lemma orders_are_stable d : stable (orders_are d).
Proof.
  split; [|done].
  intros order prep s Hd. rewrite attemptToProcess_eq.
  destruct (heap s !! order) as [o0|]; [|done].
  destruct (lookup_prep prep s) as [p|]; [|done].
  destruct (eligible o0 p); [|done]. unfold orders_are. cbn.
  by rewrite dom_alter_L.
Qed.

Lemma orders_are_step d :
  ∀ s s', Inv s → orders_are d s → step s s' → orders_are d s'.
Proof.
  apply step_rule.
  - apply orders_are_stable.
  - done.
  - done.
  - intros s tm1 tm tm2 o p b1 b2 _ Hd _ _ _ _ _ _ _ _.
    unfold orders_are. rewrite heap_advanced, !dom_alter_L. exact Hd.
Qed.

(** From any state of a run on, whatever the event loop does: no order is
    created or dropped, and an order keeps its identifier and its topping
    count and is at the stage it was at, or at a later one. *)
Theorem orders_only_move_forward (s s' : State) (i : nat) (o : Order) :
  reachable s → rtc step s s' → heap s !! i = Some o →
  dom (heap s') = dom (heap s)
  ∧ ∃ o', heap s' !! i = Some o' ∧ stage o ≤ stage o' ≤ StageTypes.DONE
          ∧ o_id o' = o_id o ∧ toppingsCount o' = toppingsCount o.
Proof.
  intros HI%Inv_reachable Hs Ho. split.
  - by apply (steps_rule _ (orders_are_step (dom (heap s))) s s').
  - destruct (steps_rule _ (order_at_least_step i (stage o) (o_id o) (toppingsCount o))
                s s' HI) as (o' & Ho' & Hk & Hid & Hc); [|done|].
    { exists o. repeat split; (done || lia). }
    exists o'. destruct (inv_heap s' (Inv_steps s s' HI Hs) i o' Ho') as [_ Hr].
    repeat split; (done || apply Hr).
Qed.

Lemma orders_only_move_forward_witness :
  reachable (kitchen 4 1) ∧ rtc step (kitchen 4 1) (run 50 (kitchen 4 1))
  ∧ heap (kitchen 4 1) !! 1%nat = Some (mkOrder 1 4 StageTypes.DOUGHCHEF false)
  ∧ ∃ o', heap (run 50 (kitchen 4 1)) !! 1%nat = Some o'
          ∧ StageTypes.DOUGHCHEF ≤ stage o' ≤ StageTypes.DONE
          ∧ o_id o' = 1%nat ∧ toppingsCount o' = 4.
Proof.
  assert (H : reachable (kitchen 4 1)).
  { apply reachable_init, random_ok_const. by compute. }
  assert (Ho : heap (kitchen 4 1) !! 1%nat = Some (mkOrder 1 4 StageTypes.DOUGHCHEF false))
    by (vm_compute; reflexivity).
  split; [exact H|]. split; [apply run_steps|]. split; [exact Ho|].
  apply (orders_only_move_forward _ _ _ _ H (run_steps 50 (kitchen 4 1)) Ho).
Defined.

(** ** Conservation *)

Lemma default_bucket s k :
  Inv s → 1 ≤ k ≤ 5 →
  NoDup (default [] (orders s !! k))
  ∧ ∀ i, i ∈ default [] (orders s !! k) ↔ ∃ o, heap s !! i = Some o ∧ stage o = k.
Proof.
  intros HI Hk. destruct (inv_buckets s HI k Hk) as [b Hb]. rewrite Hb. cbn.
  apply (inv_registry s HI k b Hb).
Qed.

(** In every state of every run, the five buckets together hold every
    order exactly once: their keys, put end to end, are a list without
    repetition of the identifiers of the orders, and there are [ordersSize]
    of them. *)
Theorem registry_conserves_orders (s : State) :
  reachable s →
  NoDup (registry_keys s)
  ∧ (∀ i, i ∈ registry_keys s ↔ is_Some (heap s !! i))
  ∧ length (registry_keys s) = ordersSize s.
Proof.
  intros HI%Inv_reachable.
  destruct (default_bucket s 1 HI ltac:(lia)) as [N1 E1].
  destruct (default_bucket s 2 HI ltac:(lia)) as [N2 E2].
  destruct (default_bucket s 3 HI ltac:(lia)) as [N3 E3].
  destruct (default_bucket s 4 HI ltac:(lia)) as [N4 E4].
  destruct (default_bucket s 5 HI ltac:(lia)) as [N5 E5].
  assert (Hnd : NoDup (registry_keys s)).
  { unfold registry_keys, StageTypes.DOUGHCHEF, StageTypes.TOPPINGCHEF,
      StageTypes.OVEN, StageTypes.WAITER, StageTypes.DONE.
    repeat (apply NoDup_app; split; [done|]; split;
            [intros i; rewrite ?elem_of_app, ?E1, ?E2, ?E3, ?E4, ?E5;
             intros (o & Ho & Hs);
             intros H; repeat destruct H as [H|H];
             destruct H as (o' & Ho' & Hs'); assert (o' = o) by congruence;
             subst o'; lia|]).
    done. }
  assert (Hin : ∀ i, i ∈ registry_keys s ↔ is_Some (heap s !! i)).
  { intros i. unfold registry_keys, StageTypes.DOUGHCHEF, StageTypes.TOPPINGCHEF,
      StageTypes.OVEN, StageTypes.WAITER, StageTypes.DONE.
    rewrite !elem_of_app, E1, E2, E3, E4, E5. split.
    - intros H. repeat destruct H as [H|H]; destruct H as (o & Ho & _); by exists o.
    - intros [o Ho]. destruct (inv_heap s HI i o Ho) as [_ Hst].
      assert (stage o = 1 ∨ stage o = 2 ∨ stage o = 3 ∨ stage o = 4 ∨ stage o = 5)
        as [H|[H|[H|[H|H]]]] by lia; eauto 10. }
  split; [done|]. split; [done|].
  rewrite (inv_size s HI), <- length_map_to_list, <- (length_fmap fst).
  apply Permutation_length, NoDup_Permutation; [done|apply NoDup_fst_map_to_list|].
  intros i. rewrite Hin. split.
  - intros [o Ho]. apply list_elem_of_fmap. exists (i, o). split; [done|].
    by apply elem_of_map_to_list.
  - intros ([j o] & -> & Ho%elem_of_map_to_list)%list_elem_of_fmap. by exists o.
Qed.

Lemma registry_conserves_orders_witness :
  reachable (drain 20 (kitchen 3 3))
  ∧ length (registry_keys (drain 20 (kitchen 3 3))) = 3%nat.
Proof.
  assert (H : reachable (drain 20 (kitchen 3 3))).
  { apply reachable_kitchen. by compute. }
  split; [exact H|].
  apply (registry_conserves_orders _ H).
Defined.

(** ** Each finished order is logged once *)

Lemma done_order_count_app i s l :
  done_order_count i (with_trace (λ t, t ++ l) s)
  = (done_order_count i s + length (List.filter (is_done_order i) l))%nat.
Proof. unfold done_order_count. cbn. by rewrite List.filter_app, length_app. Qed.

Lemma done_order_count_mark i who b s :
  done_order_count i (mark who b s) = done_order_count i s.
Proof.
  unfold done_order_count. rewrite trace_mark, List.filter_app, length_app. cbn. lia.
Qed.

Lemma done_order_count_start_pairing i order prep time s :
  done_order_count i (start_pairing order prep time s) = done_order_count i s.
Proof.
  unfold done_order_count, start_pairing. cbn [with_timers with_trace trace].
  rewrite !trace_mark, <- !app_assoc, List.filter_app, length_app. cbn. lia.
Qed.

Lemma done_order_count_advanced i order k b1 b2 s :
  done_order_count i (advanced order k b1 b2 s)
  = (done_order_count i s
     + if (k + 1 =? StageTypes.DONE)%Z && (order =? i)%nat then 1 else 0)%nat.
Proof.
  unfold advanced. rewrite done_order_count_mark. set (s1 := relocated _ _ _ _ _).
  assert (H1 : done_order_count i s1
               = (done_order_count i s
                  + if (k + 1 =? StageTypes.DONE)%Z && (order =? i)%nat then 1 else 0)%nat).
  { subst s1. unfold relocated, done_order_count. cbn [with_orders trace].
    unfold log_if. destruct (k + 1 =? StageTypes.DONE); cbn [with_trace with_heap trace andb].
    - rewrite List.filter_app, length_app. cbn. by destruct (order =? i)%nat.
    - lia. }
  unfold log_if. destruct (done_all s1); [|done].
  rewrite done_order_count_app, H1. cbn. lia.
Qed.

Lemma done_order_expected_alter_ready b order i s h :
  heap s = alter (set_o_ready b) order h →
  done_order_expected i s
  = match h !! i with
    | Some o => if stage o =? StageTypes.DONE then 1%nat else 0%nat
    | None => 0%nat
    end.
Proof.
  intros Hh. unfold done_order_expected. rewrite Hh, lookup_alter.
  case_decide; [subst i|done]. by destruct (h !! order).
Qed.

Lemma done_orders_logged_stable : stable done_orders_logged.
Proof.
  split; [|done].
  intros order prep s HP. rewrite attemptToProcess_eq.
  destruct (heap s !! order) as [o|]; [|done].
  destruct (lookup_prep prep s) as [p|]; [|done].
  destruct (eligible o p); [|done]. cbn [state_of].
  intros i. rewrite done_order_count_start_pairing, HP.
  symmetry. by apply (done_order_expected_alter_ready false order).
Qed.

Lemma done_orders_logged_step :
  ∀ s s', Inv s → done_orders_logged s → step s s' → done_orders_logged s'.
Proof.
  apply step_rule.
  - apply done_orders_logged_stable.
  - intros who s HP i. rewrite done_order_count_app. cbn. rewrite Nat.add_0_r. apply HP.
  - intros r s HP i. rewrite done_order_count_mark. apply HP.
  - intros s tm1 tm tm2 o p b1 b2 _ HP _ Ho _ _ Hk _ _ _ i.
    rewrite done_order_count_advanced.
    change (done_order_count i (with_timers (λ _, tm1 ++ tm2) s))
      with (done_order_count i s).
    rewrite (HP i). unfold done_order_expected.
    rewrite heap_advanced. cbn [with_timers heap]. rewrite !lookup_alter.
    destruct (Nat.eqb_spec (t_order tm) i) as [E|Hne].
    + rewrite !decide_True by done. rewrite <- E, Ho. cbn.
      unfold StageTypes.DONE in *.
      destruct (Z.eqb_spec (stage o) 5); [lia|].
      rewrite andb_true_r. destruct (stage o + 1 =? 5); lia.
    + rewrite !decide_False by done. rewrite andb_false_r. lia.
Qed.

(** In every state of every run, "Done processing order i" has been logged
    once for each order at the Done stage, and not at all for an order
    that is at an earlier stage or does not exist. *)
Theorem done_order_logged_exactly_once (s : State) (i : nat) :
  reachable s →
  done_order_count i s
  = match heap s !! i with
    | Some o => if stage o =? StageTypes.DONE then 1%nat else 0%nat
    | None => 0%nat
    end.
Proof.
  intros (rnd & n & _ & Hs). revert i.
  apply (steps_rule _ done_orders_logged_step (init rnd n)); [apply Inv_init| |done].
  destruct (main_eq rnd n) as (s1 & _ & _ & _ & _ & Htr & -> & Hnew & _).
  unfold initOrderProcessing, bind, gets.
  apply (stable_initOrderProcessing_loop _ done_orders_logged_stable).
  intros i. unfold done_order_count, done_order_expected. rewrite Htr. cbn.
  destruct (heap s1 !! i) as [o|] eqn:Ho; [|done]. by rewrite (Hnew i o Ho).
Qed.

Lemma done_order_logged_exactly_once_witness :
  reachable (run 200 (kitchen 3 2))
  ∧ stage <$> heap (run 200 (kitchen 3 2)) !! 2%nat = Some StageTypes.DONE
  ∧ done_order_count 2 (run 200 (kitchen 3 2)) = 1%nat.
Proof.
  assert (H : reachable (run 200 (kitchen 3 2))).
  { exists (λ _, 3), 2%nat. split; [by apply random_ok_const|apply run_steps]. }
  split; [exact H|].
  assert (Ho : heap (run 200 (kitchen 3 2)) !! 2%nat
               = Some (mkOrder 2 3 StageTypes.DONE true)) by (vm_compute; reflexivity).
  split; [by rewrite Ho|].
  pose proof (done_order_logged_exactly_once _ 2 H) as E.
  rewrite Ho in E. exact E.
Defined.

(** ** Start of the script *)

Lemma bucket_insert_last a b :
  Forall (λ j, (j < a)%nat) b → bucket_insert a b = b ++ [a].
Proof.
  induction 1 as [|j b Hj _ IH]; [done|]. cbn [bucket_insert app].
  destruct (Nat.ltb_spec a j); [lia|]. destruct (Nat.eqb_spec a j); [lia|].
  by rewrite IH.
Qed.

Lemma initOrders_loop_state rnd n : ∀ a s b,
  orders s !! StageTypes.DOUGHCHEF = Some b → Forall (λ j, (j < a)%nat) b →
  ∃ s', for_each (seq a n) (initOrders_body rnd) s = Ret tt s'
        ∧ allPreps s' = allPreps s
        ∧ orders s' = <[StageTypes.DOUGHCHEF := b ++ seq a n]> (orders s)
        ∧ ordersSize s' = (ordersSize s + n)%nat
        ∧ (∀ j, heap s' !! j = if bool_decide (a ≤ j < a + n)%nat
                               then Some (new_Order j (rnd j)) else heap s !! j)
        ∧ timers s' = timers s ∧ tasks s' = tasks s ∧ trace s' = trace s.
Proof.
  induction n as [|n IH]; intros a s b Hb Hlt; cbn [seq for_each].
  - exists s. split; [done|]. split; [done|]. split.
    { by rewrite app_nil_r, insert_id. }
    split; [lia|]. split; [|done].
    intros j. rewrite bool_decide_eq_false_2; [done|lia].
  - unfold bind. rewrite (initOrders_body_eq rnd a b s Hb).
    rewrite bucket_insert_last by done.
    edestruct (IH (S a)) as (s' & Hs' & Hp & Ho & Hsz & Hh & Hti & Hta & Htr);
      [| |exists s'; split; [exact Hs'|]].
    { cbn. apply lookup_insert_eq. }
    { apply Forall_app. split.
      - eapply Forall_impl; [exact Hlt|]. cbn. lia.
      - repeat constructor. }
    split; [by rewrite Hp|]. split.
    { rewrite Ho. cbn. by rewrite insert_insert_eq, <- app_assoc. }
    split; [rewrite Hsz; cbn; lia|]. split; [|by rewrite Hti, Hta, Htr].
    intros j. rewrite Hh. cbn [heap with_ordersSize with_orders with_heap].
    destruct (decide (j = a)) as [->|Hne].
    + rewrite lookup_insert_eq. repeat case_bool_decide; (done || (exfalso; lia)).
    + rewrite lookup_insert_ne by done.
      repeat case_bool_decide; (done || (exfalso; lia)).
Qed.

Lemma initOrders_state rnd n :
  ∃ s1, initOrders rnd n started = Ret tt s1
        ∧ allPreps s1 = allPreps started
        ∧ orders s1 = <[StageTypes.DOUGHCHEF := seq 1 n]> (orders started)
        ∧ ordersSize s1 = n
        ∧ (∀ j, heap s1 !! j = if bool_decide (1 ≤ j ≤ n)%nat
                               then Some (new_Order j (rnd j)) else None)
        ∧ timers s1 = [] ∧ tasks s1 = [] ∧ trace s1 = [].
Proof.
  destruct (initOrders_loop_state rnd n 1 started [])
    as (s1 & Hs1 & Hp & Ho & Hsz & Hh & Hti & Hta & Htr); [done|constructor|].
  exists s1. do 3 (split; [done|]). split; [done|]. split; [|done].
  intros j. rewrite Hh. change (heap started) with (∅ : gmap nat Order).
  rewrite lookup_empty.
  repeat case_bool_decide; (done || (exfalso; lia)).
Qed.

Lemma lookup_started l i p k :
  allPreps started !! k = Some l → l !! i = Some p →
  p_ready p = true ∧ getStage p = k ∧ (i < 3)%nat.
Proof.
  unfold started. cbn -[initPreps].
  unfold StageTypes.DONE, StageTypes.WAITER, StageTypes.OVEN,
    StageTypes.TOPPINGCHEF, StageTypes.DOUGHCHEF.
  intros Hl Hp.
  repeat (rewrite lookup_insert in Hl; case_decide;
          [injection Hl as <-; pose proof (lookup_lt_Some _ _ _ Hp) as Hlen;
           apply initPreps_lookup in Hp as [Hc Hr]; split; [done|];
           split; [unfold getStage; rewrite Hc; by subst k|cbn in Hlen; lia]|]).
  by rewrite lookup_empty in Hl.
Qed.

Lemma lookup_prep_started (r : PrepRef) p :
  (allPreps started !! r.1 ≫= (λ l : list Prep, l !! r.2)) = Some p →
  p_ready p = true.
Proof.
  intros Hp. destruct (allPreps started !! r.1) as [l|] eqn:E; [|done].
  cbn in Hp. by destruct (lookup_started l r.2 p r.1 E Hp).
Qed.

(** [onScriptStart] followed by [initOrders(n)] returns, whatever the
    random source: the workers are those of [onScriptStart]; the orders are
    1 to n, each new (free, at the dough stage, with the topping count
    drawn for it); the dough bucket holds the keys 1 to n in this order,
    the other four buckets are empty; [ordersSize] is n; nothing is
    scheduled, suspended or logged. *)
Theorem initOrders_registers_orders (rnd : nat → Z) (n : nat) :
  ∃ s1, (onScriptStart ;; initOrders rnd n)%js empty_state = Ret tt s1
        ∧ allPreps s1 = allPreps started
        ∧ orders s1 !! StageTypes.DOUGHCHEF = Some (seq 1 n)
        ∧ (∀ k, 2 ≤ k ≤ 5 → orders s1 !! k = Some [])
        ∧ ordersSize s1 = n
        ∧ (∀ j, heap s1 !! j = if bool_decide (1 ≤ j ≤ n)%nat
                               then Some (new_Order j (rnd j)) else None)
        ∧ timers s1 = [] ∧ tasks s1 = [] ∧ trace s1 = [].
Proof.
  destruct (initOrders_state rnd n) as (s1 & Hs1 & Hp & Ho & Hsz & Hh & Hrest).
  exists s1. split.
  { unfold bind at 1. change (onScriptStart empty_state) with (Ret tt started).
    exact Hs1. }
  split; [done|]. split; [by rewrite Ho, lookup_insert_eq|].
  split; [|done]. intros k Hk. rewrite Ho.
  unfold StageTypes.DOUGHCHEF. rewrite lookup_insert_ne by lia.
  assert (k = 2 ∨ k = 3 ∨ k = 4 ∨ k = 5) as [->|[->|[->| ->]]] by lia; reflexivity.
Qed.

(** ** Busy means paired *)

Lemma busy_paired_but_stable x : stable (busy_paired_but x).
Proof.
  split; [|done].
  intros order prep s [HO HP]. rewrite attemptToProcess_eq.
  destruct (heap s !! order) as [o|] eqn:Ho; [|done].
  destruct (lookup_prep prep s) as [p|] eqn:Hp; [|done].
  destruct (eligible o p); [|done]. cbn [state_of].
  split.
  - intros i o' (o1 & Ho1 & ->)%heap_start_pairing Hb.
    cbn [start_pairing with_timers timers]. rewrite map_app, elem_of_app. cbn.
    case_decide as Hi.
    + right. subst i. apply list_elem_of_singleton. done.
    + left. change (i ∈ map t_order (timers s)). by apply (HO i o1).
  - intros r p' (p1 & Hp1 & ->)%lookup_prep_start_pairing Hb.
    cbn [start_pairing with_timers timers]. rewrite map_app, elem_of_app. cbn.
    case_decide as Hr.
    + left. right. subst r. apply list_elem_of_singleton. done.
    + destruct (HP r p1 Hp1 Hb) as [H|H]; [|by right].
      left. left. exact H.
Qed.

Lemma step_rule2 (P : State → Prop) (Q : PrepRef → State → Prop) :
  stable P → (∀ r, stable (Q r)) →
  (∀ who s, P s → P (with_trace (λ t, t ++ [Emit who]) s)) →
  (∀ r who s, Q r s → Q r (with_trace (λ t, t ++ [Emit who]) s)) →
  (∀ r s, Q r s → P (mark (APrep r) true s)) →
  (∀ s tm1 tm tm2 o p b1 b2,
     Inv s → P s → timers s = tm1 ++ tm :: tm2 →
     heap s !! t_order tm = Some o → lookup_prep (t_prep tm) s = Some p →
     stage o = getStage p → 1 ≤ stage o ≤ 4 →
     t_order tm ∉ map t_order (tm1 ++ tm2) →
     t_prep tm ∉ map t_prep (tm1 ++ tm2) →
     orders s !! stage o = Some b1 → orders s !! (stage o + 1) = Some b2 →
     Q (t_prep tm)
       (advanced (t_order tm) (stage o) b1 b2 (with_timers (λ _, tm1 ++ tm2) s))) →
  ∀ s s', Inv s → P s → step s s' → P s'.
Proof.
  intros HP HQ Hemit HemitQ Hmark Hadv s s' HI Hs Hstep.
  destruct Hstep as [s ts1 t ts2 Hts|s tm1 tm tm2 Hts Htm].
  - apply (stable_resume P HP). by apply HP.
  - destruct (Inv_fire s tm1 tm tm2 _ HI Htm eq_refl)
      as (HI0 & Hl & Hno & o & p & b1 & b2 & Ho & Hp & Hor & Hst & Hr & Hid & Hk & Hk' & Hd).
    rewrite (timerCallback_eq _ _ _ o b1 b2) by done.
    apply (stable_emit_call P HP), Hemit, Hmark.
    apply (stable_emit_call _ (HQ (t_prep tm))), HemitQ.
    apply (Hadv s tm1 tm tm2 o p b1 b2); try done. apply Hl.
Qed.

Lemma busy_paired_step :
  ∀ s s', Inv s → busy_paired_but None s → step s s' → busy_paired_but None s'.
Proof.
  apply (step_rule2 _ (λ r, busy_paired_but (Some r))).
  - apply busy_paired_but_stable.
  - intros r. apply busy_paired_but_stable.
  - done.
  - done.
  - intros r s [HO HP]. split.
    + intros i o Ho. rewrite heap_mark_prep in Ho. by apply HO.
    + intros r' p' (p1 & Hp1 & ->)%lookup_prep_mark_prep Hb. left.
      case_decide as Hr; [done|].
      destruct (HP r' p1 Hp1 Hb) as [H|H]; [exact H|congruence].
  - intros s tm1 tm tm2 o p b1 b2 _ [HO HP] Htm Ho Hp _ _ _ _ _ _. split.
    + intros i o' (o1 & Ho1 & ->)%heap_advanced_lookup Hb.
      rewrite timers_advanced. cbn [with_timers timers].
      case_decide as Hi; [done|]. cbn [with_timers heap] in Ho1.
      pose proof (HO i o1 Ho1 Hb) as Hin. rewrite Htm in Hin.
      rewrite map_app, elem_of_app in Hin. cbn in Hin. rewrite elem_of_cons in Hin.
      rewrite map_app, elem_of_app. destruct Hin as [?|[?|?]]; [by left|congruence|by right].
    + intros r p'. rewrite lookup_prep_advanced. intros Hp' Hb.
      rewrite timers_advanced. cbn [with_timers timers].
      change (lookup_prep r s = Some p') in Hp'.
      destruct (HP r p' Hp' Hb) as [Hin|?]; [|done]. rewrite Htm in Hin.
      rewrite map_app, elem_of_app in Hin. cbn in Hin. rewrite elem_of_cons in Hin.
      rewrite map_app, elem_of_app.
      destruct Hin as [?|[->|?]]; [by left; left|by right|by left; right].
Qed.

(** In every state of every run an order is marked busy exactly when a
    pending timer holds it, and so is a worker: no order and no worker is
    left busy once its timer has fired and the callback has run. *)
Theorem busy_iff_paired (s : State) :
  reachable s →
  (∀ i o, heap s !! i = Some o →
     (o_ready o = false ↔ i ∈ map t_order (timers s)))
  ∧ (∀ r p, lookup_prep r s = Some p →
     (p_ready p = false ↔ r ∈ map t_prep (timers s))).
Proof.
  intros Hr. pose proof (Inv_reachable s Hr) as HI.
  destruct Hr as (rnd & n & _ & Hs).
  assert (H : busy_paired_but None s).
  { apply (steps_rule _ busy_paired_step (init rnd n)); [apply Inv_init| |done].
    destruct (main_eq rnd n) as (s1 & Hs1 & HI1 & _ & Hti & _ & -> & Hnew & _).
    unfold initOrderProcessing, bind, gets.
    apply (stable_initOrderProcessing_loop _ (busy_paired_but_stable None)).
    split.
    - intros i o Ho Hb. rewrite (Hnew i o Ho) in Hb. discriminate Hb.
    - intros r p Hp Hb. exfalso.
      destruct (initOrders_state rnd n) as (s2 & Hs2 & Hpreps & _).
      assert (s2 = s1) by congruence. subst s2.
      unfold lookup_prep in Hp. rewrite Hpreps in Hp.
      apply lookup_prep_started in Hp. congruence. }
  destruct H as [HO HP]. split.
  - intros i o Ho. split; [by apply HO|].
    intros (tm & -> & Htm)%list_elem_of_fmap. by apply (timer_order_busy s tm).
  - intros r p Hp. split.
    + intros Hb. by destruct (HP r p Hp Hb).
    + intros (tm & -> & Htm)%list_elem_of_fmap. by apply (timer_prep_busy s tm).
Qed.

Lemma busy_iff_paired_witness :
  reachable (drain 20 (kitchen 3 3))
  ∧ heap (drain 20 (kitchen 3 3)) !! 1%nat = Some (mkOrder 1 3 StageTypes.DOUGHCHEF false)
  ∧ (o_ready (mkOrder 1 3 StageTypes.DOUGHCHEF false) = false
     ↔ 1%nat ∈ map t_order (timers (drain 20 (kitchen 3 3)))).
Proof.
  assert (H : reachable (drain 20 (kitchen 3 3))).
  { apply reachable_kitchen. by compute. }
  assert (H1 : heap (drain 20 (kitchen 3 3)) !! 1%nat
               = Some (mkOrder 1 3 StageTypes.DOUGHCHEF false)) by (vm_compute; reflexivity).
  split; [exact H|]. split; [exact H1|].
  exact (proj1 (busy_iff_paired _ H) 1%nat _ H1).
Defined.
